(** * A shallow embedding of the OCapN CapTP test suite in Rocq

    Sources: [contrib/syrup.py] (the Syrup codec), [utils/captp.py]
    ([CapTPSession]), [utils/captp_types.py] (descriptors and operations) and
    [utils/ocapn_uris.py] ([OCapNNode]).

    Byte strings (Python [bytes], and the UTF-8 image of a Python [str]) are
    Rocq [string]s: a Rocq [string] is a sequence of 8-bit characters. *)

From Stdlib Require Import String Ascii List ZArith NArith Lia Bool.
From Stdlib Require Import Permutation Sorted DecimalN DecimalPos.
Import ListNotations.

Set Warnings "-register-all".

Open Scope list_scope.
Open Scope string_scope.

(** ** Python exceptions raised by the modelled code *)

Inductive exn : Type :=
| SyrupDecodeError
| SyrupEncodeError
| SyrupSingleFloatsNotSupported
| UnicodeDecodeError
| StructError
| TypeError
| AssertionError
| AttributeError
| ValueError
| IndexError
| PlainException.

Module Syrup.

(** ** Syrup values, as the Python objects [syrup_encode] accepts *)

(** [VStr] holds the UTF-8 image of a Python [str] ([obj.encode('utf-8')]),
    [VSym] the UTF-8 image of a [Symbol]'s name, [VFloat] the IEEE-754
    binary64 bit pattern of a Python [float].  [VDict] lists the entries of a
    Python [dict] in its iteration order; [VSet] the elements of a [set]. *)
Inductive value : Type :=
| VInt (z : Z)
| VBytes (b : string)
| VStr (s : string)
| VSym (name : string)
| VBool (b : bool)
| VFloat (bits : Z)
| VList (l : list value)
| VDict (d : list (value * value))
| VRecord (label : value) (args : list value)
| VSet (l : list value).

Section value_ind'.
  Variable P : value -> Prop.
  Hypothesis HInt : forall z, P (VInt z).
  Hypothesis HBytes : forall b, P (VBytes b).
  Hypothesis HStr : forall s, P (VStr s).
  Hypothesis HSym : forall s, P (VSym s).
  Hypothesis HBool : forall b, P (VBool b).
  Hypothesis HFloat : forall b, P (VFloat b).
  Hypothesis HList : forall l, Forall P l -> P (VList l).
  Hypothesis HDict : forall d, Forall (fun kv => P (fst kv) /\ P (snd kv)) d -> P (VDict d).
  Hypothesis HRecord : forall a l, P a -> Forall P l -> P (VRecord a l).
  Hypothesis HSet : forall l, Forall P l -> P (VSet l).

Fixpoint value_ind' (v : value) : P v :=
    let fix go_list (l : list value) : Forall P l :=
      match l with
      | [] => Forall_nil _
      | x :: xs => Forall_cons _ (value_ind' x) (go_list xs)
      end in
    let fix go_dict (d : list (value * value))
      : Forall (fun kv => P (fst kv) /\ P (snd kv)) d :=
      match d with
      | [] => Forall_nil _
      | (k, x) :: d' =>
          @Forall_cons _ (fun kv => P (fst kv) /\ P (snd kv)) (k, x) d'
            (conj (value_ind' k) (value_ind' x)) (go_dict d')
      end in
    match v with
    | VInt z => HInt z
    | VBytes b => HBytes b
    | VStr s => HStr s
    | VSym s => HSym s
    | VBool b => HBool b
    | VFloat b => HFloat b
    | VList l => HList l (go_list l)
    | VDict d => HDict d (go_dict d)
    | VRecord a l => HRecord a l (value_ind' a) (go_list l)
    | VSet l => HSet l (go_list l)
    end.
End value_ind'.

(** ** Byte-level helpers *)

Definition chr (n : nat) : string := String (ascii_of_nat n) EmptyString.

(** The joiners of strings (double quote, code 34) and symbols (single quote, code 39). *)
Definition dquote : ascii := "034"%char.
Definition squote : ascii := "039"%char.

Fixpoint concat_str (l : list string) : string :=
  match l with
  | [] => EmptyString
  | s :: l' => s ++ concat_str l'
  end.

(** Decimal digits, most significant first, of a [Decimal.uint]. *)
Fixpoint string_of_uint (d : Decimal.uint) : string :=
  match d with
  | Decimal.Nil => EmptyString
  | Decimal.D0 l => String "0" (string_of_uint l)
  | Decimal.D1 l => String "1" (string_of_uint l)
  | Decimal.D2 l => String "2" (string_of_uint l)
  | Decimal.D3 l => String "3" (string_of_uint l)
  | Decimal.D4 l => String "4" (string_of_uint l)
  | Decimal.D5 l => String "5" (string_of_uint l)
  | Decimal.D6 l => String "6" (string_of_uint l)
  | Decimal.D7 l => String "7" (string_of_uint l)
  | Decimal.D8 l => String "8" (string_of_uint l)
  | Decimal.D9 l => String "9" (string_of_uint l)
  end.

(** Python's [str(n).encode('latin-1')] for a non-negative integer. *)
Definition dec (n : N) : string := string_of_uint (N.to_uint n).

(** [struct.pack('>...', bits)]: [k] big-endian bytes of [bits]. *)
Fixpoint be_bytes (k : nat) (bits : Z) : string :=
  match k with
  | O => EmptyString
  | S k' => be_bytes k' (bits / 256) ++ chr (Z.to_nat (bits mod 256))
  end.

(** Python's [bytes] ordering: byte-wise lexicographic, a prefix first. *)
Definition bytes_leb (a b : string) : bool := String.leb a b.

(** [sorted(...)] is stable; this insertion sort is too. *)
Fixpoint insert_pair (p : string * string) (l : list (string * string))
  : list (string * string) :=
  match l with
  | [] => [p]
  | q :: l' => if bytes_leb (fst p) (fst q) then p :: l else q :: insert_pair p l'
  end.

Definition sort_pairs (l : list (string * string)) : list (string * string) :=
  fold_right insert_pair [] l.

Fixpoint insert_str (s : string) (l : list string) : list string :=
  match l with
  | [] => [s]
  | t :: l' => if bytes_leb s t then s :: l else t :: insert_str s l'
  end.

Definition sort_strings (l : list string) : list string :=
  fold_right insert_str [] l.

(** ** [syrup_encode] *)

Definition netstring_encode (bstr : string) (joiner : ascii) : string :=
  dec (N.of_nat (String.length bstr)) ++ String joiner bstr.

Definition encode_int (z : Z) : string :=
  if (z =? 0)%Z then "0+"
  else if (0 <? z)%Z then dec (Z.to_N z) ++ "+"
  else dec (Z.to_N (- z)) ++ "-".

Fixpoint syrup_encode (v : value) : string :=
  match v with
  | VBytes b => netstring_encode b ":"
  | VBool true => "t"
  | VBool false => "f"
  | VInt z => encode_int z
  | VList l => "[" ++ concat_str (map syrup_encode l) ++ "]"
  | VDict d =>
      (* keys sorted by their encoding; each encoded key followed by its value *)
      "{" ++ concat_str (map (fun ek => fst ek ++ snd ek)
                           (sort_pairs (map (fun '(k, x) => (syrup_encode k, syrup_encode x)) d)))
          ++ "}"
  | VStr s => netstring_encode s dquote
  | VSym s => netstring_encode s squote
  | VFloat bits => "D" ++ be_bytes 8 bits
  | VRecord label args =>
      "<" ++ syrup_encode label ++ concat_str (map syrup_encode args) ++ ">"
  | VSet l => "#" ++ concat_str (sort_strings (map syrup_encode l)) ++ "$"
  end.

(** ** Python equality on the values the decoder builds *)

(** Fields of an IEEE-754 binary64 bit pattern. *)
Definition f64_exp (b : Z) : Z := Z.land (Z.shiftr b 52) 2047.
Definition f64_mant (b : Z) : Z := Z.land b (2 ^ 52 - 1).
Definition f64_is_nan (b : Z) : bool := (f64_exp b =? 2047)%Z && negb (f64_mant b =? 0)%Z.
Definition f64_is_zero (b : Z) : bool := (Z.land b (2 ^ 63 - 1) =? 0)%Z.

(** [float == float]: IEEE equality (a NaN equals nothing, [0.0 == -0.0]). *)
Definition float_eqb (a b : Z) : bool :=
  negb (f64_is_nan a) && negb (f64_is_nan b) && ((a =? b)%Z || (f64_is_zero a && f64_is_zero b)).

(** [float == int]: exact comparison; the float's value times [2^1074]
    is [± M * 2^E'] with [M] the significand and [E'] the shifted exponent. *)
Definition float_eq_int (b : Z) (z : Z) : bool :=
  (negb (f64_exp b =? 2047) &&
   (let m := if f64_exp b =? 0 then f64_mant b else f64_mant b + 2 ^ 52 in
    let sh := if f64_exp b =? 0 then 0 else f64_exp b - 1 in
    let mag := m * 2 ^ sh in
    (if Z.testbit b 63 then - mag else mag) =? z * 2 ^ 1074))%Z.

Definition bool_z (b : bool) : Z := if b then 1%Z else 0%Z.

(** [a == b] for hashable values ([bool] is a subclass of [int]; [Symbol]
    compares by name and never equals a [str]). *)
Definition py_key_eq (a b : value) : bool :=
  match a, b with
  | VInt x, VInt y => (x =? y)%Z
  | VInt x, VBool y | VBool y, VInt x => (x =? bool_z y)%Z
  | VBool x, VBool y => Bool.eqb x y
  | VFloat x, VFloat y => float_eqb x y
  | VFloat x, VInt y | VInt y, VFloat x => float_eq_int x y
  | VFloat x, VBool y | VBool y, VFloat x => float_eq_int x (bool_z y)
  | VBytes x, VBytes y => String.eqb x y
  | VStr x, VStr y => String.eqb x y
  | VSym x, VSym y => String.eqb x y
  | _, _ => false
  end.

(** [hash(v)] succeeds: lists, dicts and sets are unhashable, and so is a
    [Record], which defines [__eq__] without [__hash__]. *)
Definition is_hashable (v : value) : bool :=
  match v with
  | VList _ | VDict _ | VSet _ | VRecord _ _ => false
  | _ => true
  end.

Fixpoint dict_lookup (d : list (value * value)) (k : value) : option value :=
  match d with
  | [] => None
  | (k', x) :: d' => if py_key_eq k' k then Some x else dict_lookup d' k
  end.

(** Python's [==] on two distinct objects (no identity shortcut). *)
Fixpoint py_eq (a b : value) : bool :=
  let fix list_eq (l1 l2 : list value) : bool :=
    match l1, l2 with
    | [], [] => true
    | x :: xs, y :: ys => py_eq x y && list_eq xs ys
    | _, _ => false
    end in
  match a, b with
  | VList l1, VList l2 => list_eq l1 l2
  | VRecord a1 l1, VRecord a2 l2 => py_eq a1 a2 && list_eq l1 l2
  | VDict d1, VDict d2 =>
      (length d1 =? length d2)%nat &&
      forallb (fun '(k, x) => match dict_lookup d2 k with
                              | Some y => py_eq x y
                              | None => false
                              end) d1
  | VSet s1, VSet s2 =>
      (length s1 =? length s2)%nat && forallb (fun x => existsb (py_key_eq x) s2) s1
  | _, _ => py_key_eq a b
  end.

(** [d[key] = val]: replaces the value of an equal key, else appends. *)
Fixpoint dict_setitem (d : list (value * value)) (k x : value) : list (value * value) :=
  match d with
  | [] => [(k, x)]
  | (k', x') :: d' => if py_key_eq k' k then (k', x) :: d' else (k', x') :: dict_setitem d' k x
  end.

(** [s.add(x)]. *)
Definition set_add (s : list value) (x : value) : list value :=
  if existsb (py_key_eq x) s then s else (s ++ [x])%list.

(** ** UTF-8 validity, as checked by [bytes.decode('utf-8')] *)

Definition in_range (c : ascii) (lo hi : nat) : bool :=
  (lo <=? nat_of_ascii c)%nat && (nat_of_ascii c <=? hi)%nat.

Definition cont (c : ascii) : bool := in_range c 128 191.

Fixpoint utf8_valid (s : string) : bool :=
  match s with
  | EmptyString => true
  | String c r =>
      let n := nat_of_ascii c in
      if (n <? 128)%nat then utf8_valid r
      else if in_range c 194 223 then
        match r with
        | String c1 r1 => cont c1 && utf8_valid r1
        | EmptyString => false
        end
      else if in_range c 224 239 then
        match r with
        | String c1 (String c2 r2) =>
            in_range c1 (if (n =? 224)%nat then 160 else 128)
                        (if (n =? 237)%nat then 159 else 191)
            && cont c2 && utf8_valid r2
        | _ => false
        end
      else if in_range c 240 244 then
        match r with
        | String c1 (String c2 (String c3 r3)) =>
            in_range c1 (if (n =? 240)%nat then 144 else 128)
                        (if (n =? 244)%nat then 143 else 191)
            && cont c2 && cont c3 && utf8_valid r3
        | _ => false
        end
      else false
  end.

(** ** [syrup_read] *)

(** The state of the [io.BytesIO] stream is the unread suffix.  A read ends
    with a value, with an exception (and the stream where it was raised), or
    never: at end of input [peek_byte] returns [b''], and [b'' in X] holds for
    every bytes [X], so the whitespace loop and the digit loop spin forever.
    [OutOfFuel] only bounds the recursion (see [syrup_read]). *)
Inductive outcome (A : Type) : Type :=
| Done (a : A) (rest : string)
| Raised (e : exn) (rest : string)
| Hangs
| OutOfFuel.
Arguments Done {A} a rest.
Arguments Raised {A} e rest.
Arguments Hangs {A}.
Arguments OutOfFuel {A}.

Definition obind {A B : Type} (o : outcome A) (k : A -> string -> outcome B) : outcome B :=
  match o with
  | Done a rest => k a rest
  | Raised e rest => Raised e rest
  | Hangs => Hangs
  | OutOfFuel => OutOfFuel
  end.

Definition byte_in (c : ascii) (set : string) : bool :=
  existsb (Ascii.eqb c) (list_ascii_of_string set).

(** [string.whitespace]: space, tab, LF, CR, VT, FF. *)
Definition is_ws (c : ascii) : bool :=
  existsb (fun n => (nat_of_ascii c =? n)%nat) [32; 9; 10; 13; 11; 12]%nat.

Definition is_digit (c : ascii) : bool := in_range c 48 57.

Fixpoint skip_ws (s : string) : option string :=
  match s with
  | EmptyString => None
  | String c r => if is_ws c then skip_ws r else Some s
  end.

Definition str_take (n : nat) (s : string) : string := substring 0 n s.

Fixpoint str_drop (n : nat) (s : string) : string :=
  match n, s with
  | O, _ => s
  | S n', EmptyString => EmptyString
  | S n', String _ s' => str_drop n' s'
  end.

Inductive digits_outcome : Type :=
| DigitsOk (len_str : string) (joiner : ascii) (rest : string)
| DigitsBad (rest : string)
| DigitsHang.

(** The [while True: this_char = f.read(1) ...] loop of the atom case. *)
Fixpoint read_digits (s : string) (acc : string) : digits_outcome :=
  match s with
  | EmptyString => DigitsHang
  | String c r =>
      if byte_in c (String ":" (String dquote (String squote "+-"))) then DigitsOk acc c r
      else if is_digit c then read_digits r (acc ++ String c EmptyString)
      else DigitsBad r
  end.

(** [int(bytes_len_str.decode('latin-1'))]. *)
Fixpoint digits_value (s : string) (acc : N) : N :=
  match s with
  | EmptyString => acc
  | String c r => digits_value r (acc * 10 + (N.of_nat (nat_of_ascii c) - 48))%N
  end.

Fixpoint be_value (s : string) (acc : Z) : Z :=
  match s with
  | EmptyString => acc
  | String c r => be_value r (acc * 256 + Z.of_nat (nat_of_ascii c))%Z
  end.

(** The conversion [struct.unpack('>f', ...)] performs: binary32 bits to the
    binary64 bits of the same number (a NaN comes out quiet, as the hardware
    conversion leaves it). *)
Definition single_to_double (b : Z) : Z :=
  (let s := Z.shiftl (Z.land (Z.shiftr b 31) 1) 63 in
  let e := Z.land (Z.shiftr b 23) 255 in
  let m := Z.land b (2 ^ 23 - 1) in
  if (e =? 255)%Z then
    if (m =? 0)%Z then Z.lor s (Z.shiftl 2047 52)
    else Z.lor (Z.lor s (Z.shiftl 2047 52)) (Z.lor (Z.shiftl m 29) (2 ^ 51))
  else if (e =? 0)%Z then
    if (m =? 0)%Z then s
    else let k := Z.log2 m in
         Z.lor (Z.lor s (Z.shiftl (k + 874) 52)) (Z.shiftl (m - 2 ^ k) (52 - k))
  else Z.lor (Z.lor s (Z.shiftl (e + 896) 52)) (Z.shiftl m 29))%Z.

Definition read_atom (d : digits_outcome) : outcome value :=
  match d with
  | DigitsHang => Hangs
  | DigitsBad rest => Raised SyrupDecodeError rest
  | DigitsOk len_str j rest =>
      let n := digits_value len_str 0 in
      if Ascii.eqb j "+" then Done (VInt (Z.of_N n)) rest
      else if Ascii.eqb j "-" then Done (VInt (- Z.of_N n)) rest
      else
        let bstr := str_take (N.to_nat n) rest in
        let rest' := str_drop (N.to_nat n) rest in
        if Ascii.eqb j ":" then Done (VBytes bstr) rest'
        else if Ascii.eqb j squote then
          if utf8_valid bstr then Done (VSym bstr) rest' else Raised UnicodeDecodeError rest'
        else
          if utf8_valid bstr then Done (VStr bstr) rest' else Raised UnicodeDecodeError rest'
  end.

(** [struct.unpack(fmt, f.read(k))[0]], [k] bytes big-endian. *)
Definition read_packed (k : nat) (conv : Z -> Z) (s : string) : outcome value :=
  let b := str_take k s in
  if (String.length b =? k)%nat then Done (VFloat (conv (be_value b 0))) (str_drop k s)
  else Raised StructError (str_drop k s).

Fixpoint read_fuel (fuel : nat) (cs : bool) (s : string) {struct fuel} : outcome value :=
  match fuel with
  | O => OutOfFuel
  | S fuel' =>
      match skip_ws s with
      | None => Hangs
      | Some EmptyString => Hangs
      | Some (String c r as s0) =>
          if is_digit c then read_atom (read_digits s0 EmptyString)
          else if byte_in c "[(l" then read_list fuel' cs r []
          else if byte_in c "{d" then read_dict fuel' cs r []
          else if Ascii.eqb c "<" then
            obind (read_fuel fuel' cs r) (fun label r1 => read_args fuel' cs r1 label [])
          else if Ascii.eqb c "F" then
            if cs then read_packed 4 single_to_double r
            else Raised SyrupSingleFloatsNotSupported s0
          else if Ascii.eqb c "D" then read_packed 8 (fun b => b) r
          else if Ascii.eqb c "f" then Done (VBool false) r
          else if Ascii.eqb c "t" then Done (VBool true) r
          else if Ascii.eqb c "#" then read_set fuel' cs r []
          else Raised SyrupEncodeError s0
      end
  end
with read_list (fuel : nat) (cs : bool) (s : string) (acc : list value)
  {struct fuel} : outcome value :=
  match fuel with
  | O => OutOfFuel
  | S fuel' =>
      match s with
      | EmptyString => Done (VList (rev acc)) EmptyString
      | String c r =>
          if byte_in c "])e" then Done (VList (rev acc)) r
          else obind (read_fuel fuel' cs s) (fun x s' => read_list fuel' cs s' (x :: acc))
      end
  end
with read_dict (fuel : nat) (cs : bool) (s : string) (d : list (value * value))
  {struct fuel} : outcome value :=
  match fuel with
  | O => OutOfFuel
  | S fuel' =>
      match s with
      | EmptyString => Done (VDict d) EmptyString
      | String c r =>
          if byte_in c "}e" then Done (VDict d) r
          else obind (read_fuel fuel' cs s) (fun k s1 =>
               obind (read_fuel fuel' cs s1) (fun x s2 =>
               if is_hashable k then read_dict fuel' cs s2 (dict_setitem d k x)
               else Raised TypeError s2))
      end
  end
with read_args (fuel : nat) (cs : bool) (s : string) (label : value) (acc : list value)
  {struct fuel} : outcome value :=
  match fuel with
  | O => OutOfFuel
  | S fuel' =>
      match s with
      | String c r =>
          if Ascii.eqb c ">" then Done (VRecord label (rev acc)) r
          else obind (read_fuel fuel' cs s) (fun x s' => read_args fuel' cs s' label (x :: acc))
      | EmptyString =>
          obind (read_fuel fuel' cs s) (fun x s' => read_args fuel' cs s' label (x :: acc))
      end
  end
with read_set (fuel : nat) (cs : bool) (s : string) (acc : list value)
  {struct fuel} : outcome value :=
  match fuel with
  | O => OutOfFuel
  | S fuel' =>
      match s with
      | String c r =>
          if Ascii.eqb c "$" then Done (VSet acc) r
          else obind (read_fuel fuel' cs s) (fun x s' =>
               if is_hashable x then read_set fuel' cs s' (set_add acc x)
               else Raised TypeError s')
      | EmptyString =>
          obind (read_fuel fuel' cs s) (fun x s' =>
          if is_hashable x then read_set fuel' cs s' (set_add acc x)
          else Raised TypeError s')
      end
  end.

(** [syrup_read(f, convert_singles)]: every nested read and every loop round
    costs one unit of fuel, and [2 * len + 1] units cover any input (each
    round consumes a byte). *)
Definition syrup_read (convert_singles : bool) (f : string) : outcome value :=
  read_fuel (2 * String.length f + 1) convert_singles f.

(** [syrup_decode(bstr, convert_singles)] reads one value from [io.BytesIO(bstr)]. *)
Definition syrup_decode (bstr : string) (convert_singles : bool) : outcome value :=
  syrup_read convert_singles bstr.

(** ** The values Python can hand to [syrup_encode], and value identity *)

(** Pairwise Python-unequal, as the keys of a [dict] or the elements of a [set]. *)
Fixpoint pairwise_distinct (l : list value) : bool :=
  match l with
  | [] => true
  | x :: xs => forallb (fun y => negb (py_key_eq x y)) xs && pairwise_distinct xs
  end.

(** Well-formed values: strings and symbol names are UTF-8 images, floats
    are 64-bit patterns, dict keys and set elements are hashable and pairwise
    unequal (as in any Python [dict] or [set]). *)
Fixpoint wf (v : value) : bool :=
  match v with
  | VStr s | VSym s => utf8_valid s
  | VFloat b => (0 <=? b)%Z && (b <? 2 ^ 64)%Z
  | VList l => forallb wf l
  | VDict d =>
      forallb (fun kv => is_hashable (fst kv) && wf (fst kv) && wf (snd kv)) d
      && pairwise_distinct (map fst d)
  | VRecord a l => wf a && forallb wf l
  | VSet l => forallb (fun x => is_hashable x && wf x) l && pairwise_distinct l
  | _ => true
  end.

(** The same Python value: identical, up to the order of the entries of a
    dict and of the elements of a set (which Python's dict and set ignore). *)
Inductive same_value : value -> value -> Prop :=
| same_atom v : is_hashable v = true -> same_value v v
| same_list l1 l2 : Forall2 same_value l1 l2 -> same_value (VList l1) (VList l2)
| same_record a1 a2 l1 l2 :
    same_value a1 a2 -> Forall2 same_value l1 l2 -> same_value (VRecord a1 l1) (VRecord a2 l2)
| same_dict d1 d d2 :
    Forall2 (fun p q => fst p = fst q /\ same_value (snd p) (snd q)) d1 d ->
    Permutation d d2 -> same_value (VDict d1) (VDict d2)
| same_set l1 l2 : Permutation l1 l2 -> same_value (VSet l1) (VSet l2).

(** ** Notions used by the proofs below *)

Definition is_joiner (c : ascii) : bool :=
  byte_in c (String ":" (String dquote (String squote "+-"))).

(** The bytes a value's encoding can start with. *)
Definition starter (c : ascii) : bool := is_digit c || byte_in c "tf[{<#D".

(** [v]'s encoding, followed by anything, reads back as a value the same as
    [v], given enough fuel. *)
Definition reads_back (cs : bool) (v : value) : Prop :=
  forall fuel rest, (2 * String.length (syrup_encode v) + 1 <= fuel)%nat ->
  exists v', read_fuel fuel cs (syrup_encode v ++ rest) = Done v' rest /\ same_value v' v.

Definition encode_entry (kv : value * value) : string :=
  syrup_encode (fst kv) ++ syrup_encode (snd kv).

Definition same_entry (p q : value * value) : Prop :=
  fst p = fst q /\ same_value (snd p) (snd q).

(** The bytes that start a Syrup production the reader knows. *)
Definition syrup_tag (c : ascii) : bool := is_digit c || byte_in c "[(l{d<#FDft".

(** The byte order of encodings, as a relation. *)
Definition key_le (a b : string) : Prop := bytes_leb a b = true.

(** A dict entry's encoded key and encoded value. *)
Definition encode_kv (kv : value * value) : string * string :=
  (syrup_encode (fst kv), syrup_encode (snd kv)).

End Syrup.

(** * [CapTPSession] ([utils/captp.py]) *)

Module Session.
Import Syrup.

(** ** CapTP descriptors and operations ([utils/captp_types.py]) *)

(** The recipient of a delivery: [OpDeliver.from_syrup_record] admits only a
    [DescExport] or a [DescAnswer]. *)
Inductive target : Type :=
| DescExport (position : Z)
| DescAnswer (position : Z).

(** [CapTPType.__eq__] compares the two syrup records. *)
Definition target_eqb (a b : target) : bool :=
  match a, b with
  | DescExport x, DescExport y | DescAnswer x, DescAnswer y => (x =? y)%Z
  | _, _ => false
  end.

(** [DescImport]: a [DescImportObject] or a [DescImportPromise]. *)
Inductive import_desc : Type :=
| DescImportObject (position : Z)
| DescImportPromise (position : Z).

Definition import_position (d : import_desc) : Z :=
  match d with
  | DescImportObject p | DescImportPromise p => p
  end.

(** [DescImport.to_desc_export] (and [DescImportPromise.as_export]). *)
Definition to_desc_export (d : import_desc) : target := DescExport (import_position d).

(** An argument of a delivery, as [maybe_decode_captp_type] leaves it: a plain
    syrup value or a CapTP descriptor. *)
Inductive arg : Type :=
| APlain (v : value)
| ATarget (t : target)
| AImport (d : import_desc)
| ASigEnvelope (object : arg) (signature : string)
| AHandoffReceive (receiving_session receiving_side : string) (handoff_count : Z)
    (signed_give : arg).

(** The operations; a public key is its raw 32 bytes. *)
Inductive op : Type :=
| OpStartSession (captp_version : string) (session_pubkey : string) (location : value)
    (location_sig : string)
| OpDeliver (to : target) (args : list arg) (answer_position : option Z)
    (resolve_me_desc : import_desc)
| OpDeliverOnly (to : target) (args : list arg)
| OpListen (to : target) (resolve_me_desc : import_desc) (wants_partial : bool)
| OpAbort (reason : string)
| OpBootstrap (answer_position : Z) (resolve_me_desc : import_desc)
| OpOther (label : string).

Definition op_args (m : op) : list arg :=
  match m with
  | OpDeliver _ a _ _ | OpDeliverOnly _ a => a
  | _ => []
  end.

(** [CapTPPublicKey.to_syrup_record()]: a list, not a [Record]. *)
Definition pubkey_record (pk : string) : value :=
  VList [VSym "public-key";
         VList [VSym "ecc"; VList [VSym "curve"; VSym "Ed25519"];
                VList [VSym "flags"; VSym "eddsa"]; VList [VSym "q"; VBytes pk]]].

(** [CapTPPublicKey.to_syrup()]. *)
Definition pubkey_to_syrup (pk : string) : string := syrup_encode (pubkey_record pk).

(** ** The session object *)

(** The attributes of a [CapTPSession].  [captp_version] is the instance
    attribute [self.captp_version]: [None] while it has never been assigned.
    [sent] lists what was handed to [connection.send_message], oldest first;
    [inbox] what [connection.receive_message] will return, in order. *)
Record session : Type := mk_session {
  is_outbound : bool;
  location : value;
  captp_version : option string;
  private_key : option string;
  public_key : option string;
  remote_public_key : option string;
  next_import_position : Z;
  next_answer_position : Z;
  remote_seen_handoff_counts : list Z;
  sent : list op;
  inbox : list op
}.

(** [CapTPSession.__init__]: no [captp_version] attribute is set. *)
Definition new_session (location : value) (is_outbound : bool) (inbox : list op) : session :=
  mk_session is_outbound location None None None None 0 0 [] [] inbox.

Definition set_keys (priv pub : string) (s : session) : session :=
  mk_session (is_outbound s) (location s) (captp_version s) (Some priv) (Some pub)
    (remote_public_key s) (next_import_position s) (next_answer_position s)
    (remote_seen_handoff_counts s) (sent s) (inbox s).

Definition set_remote_public_key (k : string) (s : session) : session :=
  mk_session (is_outbound s) (location s) (captp_version s) (private_key s) (public_key s)
    (Some k) (next_import_position s) (next_answer_position s)
    (remote_seen_handoff_counts s) (sent s) (inbox s).

Definition set_next_import_position (n : Z) (s : session) : session :=
  mk_session (is_outbound s) (location s) (captp_version s) (private_key s) (public_key s)
    (remote_public_key s) n (next_answer_position s)
    (remote_seen_handoff_counts s) (sent s) (inbox s).

Definition set_seen (seen : list Z) (s : session) : session :=
  mk_session (is_outbound s) (location s) (captp_version s) (private_key s) (public_key s)
    (remote_public_key s) (next_import_position s) (next_answer_position s)
    seen (sent s) (inbox s).

Definition set_sent (l : list op) (s : session) : session :=
  mk_session (is_outbound s) (location s) (captp_version s) (private_key s) (public_key s)
    (remote_public_key s) (next_import_position s) (next_answer_position s)
    (remote_seen_handoff_counts s) l (inbox s).

Definition set_inbox (l : list op) (s : session) : session :=
  mk_session (is_outbound s) (location s) (captp_version s) (private_key s) (public_key s)
    (remote_public_key s) (next_import_position s) (next_answer_position s)
    (remote_seen_handoff_counts s) (sent s) l.

(** ** Session methods: a state monad with Python exceptions *)

(** A method call returns, raises, or waits on [receive_message] with
    nothing left to read (it blocks until the timeout). *)
Inductive result (A : Type) : Type :=
| Ok (a : A) (s : session)
| Err (e : exn) (s : session)
| Blocked (s : session).
Arguments Ok {A} a s.
Arguments Err {A} e s.
Arguments Blocked {A} s.

Definition M (A : Type) : Type := session -> result A.

Definition ret {A : Type} (a : A) : M A := fun s => Ok a s.

Definition bind {A B : Type} (m : M A) (k : A -> M B) : M B :=
  fun s => match m s with
           | Ok a s' => k a s'
           | Err e s' => Err e s'
           | Blocked s' => Blocked s'
           end.

Definition raise {A : Type} (e : exn) : M A := fun s => Err e s.
Definition gets {A : Type} (f : session -> A) : M A := fun s => Ok (f s) s.
Definition modify (f : session -> session) : M unit := fun s => Ok tt (f s).
Definition assert_ (b : bool) : M unit := if b then ret tt else raise AssertionError.

Notation "x <- m ;; k" := (bind m (fun x => k))
  (at level 61, m at next level, right associativity).
Notation "m ;; k" := (bind m (fun _ => k)) (at level 61, right associativity).

(** [self.send_message(msg)]. *)
Definition send_message (m : op) : M unit := modify (fun s => set_sent (sent s ++ [m]) s).

(** [self.connection.receive_message()]. *)
Definition connection_receive : M op :=
  fun s => match inbox s with
           | [] => Blocked s
           | m :: rest => Ok m (set_inbox rest s)
           end.

(** The handoff count of an argument that is a [DescSigEnvelope] wrapping a
    [DescHandoffReceive] (the two [isinstance] tests of [receive_message]). *)
Definition arg_handoff_count (a : arg) : option Z :=
  match a with
  | ASigEnvelope (AHandoffReceive _ _ count _) _ => Some count
  | _ => None
  end.

Fixpoint handoff_counts (args : list arg) : list Z :=
  match args with
  | [] => []
  | a :: rest =>
      match arg_handoff_count a with
      | Some c => c :: handoff_counts rest
      | None => handoff_counts rest
      end
  end.

(** The [for arg in msg.args] loop of [receive_message]. *)
Fixpoint record_handoffs (args : list arg) : M unit :=
  match args with
  | [] => ret tt
  | a :: rest =>
      match arg_handoff_count a with
      | None => record_handoffs rest
      | Some count =>
          seen <- gets remote_seen_handoff_counts ;;
          if existsb (Z.eqb count) seen then raise PlainException
          else modify (fun s => set_seen (count :: remote_seen_handoff_counts s) s) ;;
               record_handoffs rest
      end
  end.

(** [CapTPSession.receive_message]. *)
Definition receive_message : M op :=
  msg <- connection_receive ;;
  match msg with
  | OpDeliver _ args _ _ => record_handoffs args ;; ret msg
  | _ => ret msg
  end.

Definition is_start_session (m : op) : bool :=
  match m with OpStartSession _ _ _ _ => true | _ => false end.

Definition start_session_pubkey (m : op) : string :=
  match m with OpStartSession _ k _ _ => k | _ => EmptyString end.

(** [self.captp_version]: an [AttributeError] while it is unset. *)
Definition get_captp_version : M string :=
  fun s => match captp_version s with
           | Some v => Ok v s
           | None => Err AttributeError s
           end.

Section Crypto.

(** [hashlib.sha256(x).digest()]. *)
Variable sha256 : string -> string.
(** The raw public key of a private key, [private_key.sign(data)], and
    [public_key.verify(signature, data)] (true when it does not raise). *)
Variable ed25519_public : string -> string.
Variable ed25519_sign : string -> string -> string.
Variable ed25519_verify : string -> string -> string -> bool.

(** [OpStartSession.valid]: the location signature checks against the
    session key. *)
Definition start_session_valid (m : op) : bool :=
  match m with
  | OpStartSession _ pk loc sig =>
      ed25519_verify pk sig (syrup_encode (VRecord (VSym "my-location") [loc]))
  | _ => false
  end.

(** [CapTPSession.setup_session(captp_version)]; [new_private_key] is the key
    [Ed25519PrivateKey.generate()] returns.  The version sent is read from
    [self.captp_version], not from the argument.  The inbound branch sets the
    version of its own [start_session_op], which is never sent. *)
Definition setup_session (captp_version_arg : string) (new_private_key : string) : M unit :=
  modify (set_keys new_private_key (ed25519_public new_private_key)) ;;
  loc <- gets location ;;
  let encoded_my_location := syrup_encode (VRecord (VSym "my-location") [loc]) in
  let location_sig := ed25519_sign new_private_key encoded_my_location in
  version <- get_captp_version ;;
  let start_session_op :=
    OpStartSession version (ed25519_public new_private_key) loc location_sig in
  outbound <- gets is_outbound ;;
  remote_start_session <-
    (if outbound then
       send_message start_session_op ;;
       m <- receive_message ;;
       assert_ (is_start_session m) ;;
       ret m
     else
       m <- receive_message ;;
       assert_ (is_start_session m) ;;
       ret m) ;;
  modify (set_remote_public_key (start_session_pubkey remote_start_session)) ;;
  remote_start_session2 <- receive_message ;;
  assert_ (is_start_session remote_start_session2) ;;
  modify (set_remote_public_key (start_session_pubkey remote_start_session2)).

(** Each side's id: [sha256(sha256(public_key.to_syrup()))]. *)
Definition side_id (pk : string) : string := sha256 (sha256 (pubkey_to_syrup pk)).

Definition our_side_id : M string :=
  fun s => match public_key s with
           | Some pk => Ok (side_id pk) s
           | None => Err AttributeError s
           end.

Definition their_side_id : M string :=
  fun s => match remote_public_key s with
           | Some pk => Ok (side_id pk) s
           | None => Err AttributeError s
           end.

(** [CapTPSession.id]: [keys.sort()] on two byte strings, then
    [sha256(sha256(b"prot0" + keys[0] + keys[1]))]. *)
Definition id : M string :=
  ours <- our_side_id ;;
  theirs <- their_side_id ;;
  let keys := sort_strings [ours; theirs] in
  let joined := match keys with
                | [k0; k1] => k0 ++ k1
                | _ => EmptyString
                end in
  ret (sha256 (sha256 ("prot0" ++ joined))).

End Crypto.

(** [self.next_import_object]. *)
Definition next_import_object : M import_desc :=
  fun s => Ok (DescImportObject (next_import_position s))
              (set_next_import_position (next_import_position s + 1) s).

(** [expect_message_to] with the [expect_message_type] loop inside it: read
    messages, dropping those that are not a delivery to one of [recipients].
    The timeout is not modelled; each round reads a message, so the inbox's
    length bounds the rounds. *)
Fixpoint expect_message_to_loop (n : nat) (recipients : list target) : M op :=
  match n with
  | O => fun s => Blocked s
  | S n' =>
      message <- receive_message ;;
      match message with
      | OpDeliver to _ _ _ | OpDeliverOnly to _ =>
          if existsb (target_eqb to) recipients then ret message
          else expect_message_to_loop n' recipients
      | _ => expect_message_to_loop n' recipients
      end
  end.

Definition expect_message_to (recipients : list target) : M op :=
  fun s => expect_message_to_loop (S (length (inbox s))) recipients s.

(** [arg == Symbol(name)]. *)
Definition is_symbol (a : arg) (name : string) : bool :=
  match a with
  | APlain (VSym n) => String.eqb n name
  | _ => false
  end.

(** [CapTPSession.expect_promise_resolution]: [rounds] stands for the rounds
    the timeout allows; when they run out the method returns [None]. *)
Fixpoint expect_promise_resolution (rounds : nat) (resolve_me_desc : target)
  : M (option op) :=
  match rounds with
  | O => ret None
  | S r =>
      message <- expect_message_to [resolve_me_desc] ;;
      match op_args message with
      | [] => raise IndexError
      | head :: more =>
          assert_ (is_symbol head "fulfill" || is_symbol head "break") ;;
          if is_symbol head "break" then ret (Some message)
          else
            match more with
            | [] => raise IndexError
            | AImport (DescImportPromise p) :: _ =>
                new_resolve_me <- next_import_object ;;
                let listen_op := OpListen (DescExport p) new_resolve_me true in
                send_message listen_op ;;
                expect_promise_resolution r (to_desc_export new_resolve_me)
            | _ :: _ => ret (Some message)
            end
      end
  end.

End Session.

(** * [OCapNNode] URIs ([utils/ocapn_uris.py] over Python 3.11's [urllib.parse]) *)

Module Uri.
Import Syrup.

(** A Python call that returns or raises. *)
Inductive py (A : Type) : Type :=
| Ret (a : A)
| Exc (e : exn).
Arguments Ret {A} a.
Arguments Exc {A} e.

(** ** String helpers *)

(** [(s[:i], s[i:])] for the first [i] with [s[i]] in [stop]. *)
Fixpoint span_not (stop : string) (s : string) : string * string :=
  match s with
  | EmptyString => (EmptyString, EmptyString)
  | String c r =>
      if byte_in c stop then (EmptyString, s)
      else let '(a, b) := span_not stop r in (String c a, b)
  end.

(** [s.split(c, 1)] as a pair, [None] when [c] does not occur. *)
Definition split_once (c : ascii) (s : string) : option (string * string) :=
  let '(a, b) := span_not (String c EmptyString) s in
  match b with
  | String _ r => Some (a, r)
  | EmptyString => None
  end.

(** [s.rsplit(c, 1)] as a pair, [None] when [c] does not occur. *)
Fixpoint rsplit_once (c : ascii) (s : string) : option (string * string) :=
  match s with
  | EmptyString => None
  | String d r =>
      match rsplit_once c r with
      | Some (a, b) => Some (String d a, b)
      | None => if Ascii.eqb c d then Some (EmptyString, r) else None
      end
  end.

(** [s.split(c)] (never empty). *)
Fixpoint split_on (c : ascii) (s : string) : list string :=
  match s with
  | EmptyString => [EmptyString]
  | String d r =>
      if Ascii.eqb c d then EmptyString :: split_on c r
      else match split_on c r with
           | x :: xs => String d x :: xs
           | [] => [String d EmptyString]
           end
  end.

(** [sep.join(l)]. *)
Fixpoint join (sep : string) (l : list string) : string :=
  match l with
  | [] => EmptyString
  | [x] => x
  | x :: xs => x ++ sep ++ join sep xs
  end.

Definition is_alpha (c : ascii) : bool := in_range c 65 90 || in_range c 97 122.

(** [str.lower] on ASCII letters. *)
Definition lower_char (c : ascii) : ascii :=
  if in_range c 65 90 then ascii_of_nat (nat_of_ascii c + 32) else c.

Fixpoint lower (s : string) : string :=
  match s with
  | EmptyString => EmptyString
  | String c r => String (lower_char c) (lower r)
  end.

(** [scheme_chars]: letters, digits and [+-.]. *)
Definition is_scheme_char (c : ascii) : bool := is_alpha c || is_digit c || byte_in c "+-.".

(** [url.lstrip(_WHATWG_C0_CONTROL_OR_SPACE)]: codes 0 to 32. *)
Fixpoint lstrip_c0 (s : string) : string :=
  match s with
  | EmptyString => EmptyString
  | String c r => if Nat.leb (nat_of_ascii c) 32 then lstrip_c0 r else s
  end.

(** Removing [_UNSAFE_URL_BYTES_TO_REMOVE]: tab, CR and LF. *)
Fixpoint remove_unsafe (s : string) : string :=
  match s with
  | EmptyString => EmptyString
  | String c r =>
      if byte_in c (String "009" (String "013" (String "010" EmptyString)))
      then remove_unsafe r else String c (remove_unsafe r)
  end.

(** ** [urlsplit], [urlunsplit] *)

Record split_result : Type := mk_split {
  scheme : string; netloc : string; path : string; query : string; fragment : string
}.

(** [urllib.parse.urlsplit(url)] (and [urlparse], which only splits
    [;params] off the path for the schemes of [uses_params]).  The checks
    of a bracketed netloc ([_check_bracketed_netloc]) and of a non-ASCII
    netloc ([_checknetloc]) are not modelled. *)
Definition urlsplit (url0 : string) : py split_result :=
  let url := remove_unsafe (lstrip_c0 url0) in
  let '(sch, url) :=
    match split_once ":" url with
    | Some (pre, post) =>
        match pre with
        | String c0 _ =>
            if is_alpha c0 && forallb is_scheme_char (list_ascii_of_string pre)
            then (lower pre, post) else (EmptyString, url)
        | EmptyString => (EmptyString, url)
        end
    | None => (EmptyString, url)
    end in
  let '(net, url) :=
    match url with
    | String "/" (String "/" r) => span_not "/?#" r
    | _ => (EmptyString, url)
    end in
  if xorb (byte_in "[" net) (byte_in "]" net) then Exc ValueError
  else
    let '(url, frag) :=
      match split_once "#" url with Some p => p | None => (url, EmptyString) end in
    let '(url, q) :=
      match split_once "?" url with Some p => p | None => (url, EmptyString) end in
    Ret (mk_split sch net url q frag).

(** [urlunsplit((scheme, netloc, url, query, fragment))]; ["ocapn"] is not in
    [uses_netloc], so only a non-empty netloc adds the [//]. *)
Definition urlunsplit (sch net url q frag : string) : string :=
  let url :=
    match net with
    | EmptyString => url
    | _ =>
        let url := match url with
                   | EmptyString => url
                   | String "/" _ => url
                   | _ => "/" ++ url
                   end in
        "//" ++ net ++ url
    end in
  let url := match sch with EmptyString => url | _ => sch ++ ":" ++ url end in
  let url := match q with EmptyString => url | _ => url ++ "?" ++ q end in
  match frag with EmptyString => url | _ => url ++ "#" ++ frag end.

(** [urlunparse((scheme, netloc, url, params, query, fragment))]. *)
Definition urlunparse (sch net url params q frag : string) : string :=
  let url := match params with EmptyString => url | _ => url ++ ";" ++ params end in
  urlunsplit sch net url q frag.

(** ** [quote_plus], [urlencode], [unquote], [parse_qsl] *)

(** [_ALWAYS_SAFE]: letters, digits and [_.-~]. *)
Definition always_safe (c : ascii) : bool := is_alpha c || is_digit c || byte_in c "_.-~".

Definition hex_digit (n : nat) : ascii :=
  ascii_of_nat (if Nat.ltb n 10 then 48 + n else 55 + n).

(** [quote_plus] of one byte: safe bytes stay, a space becomes [+], any other
    byte [%XX] with upper-case hex digits. *)
Definition quote_byte (c : ascii) : string :=
  if always_safe c then String c EmptyString
  else if Ascii.eqb c " " then "+"
  else String "%" (String (hex_digit (nat_of_ascii c / 16))
                     (String (hex_digit (nat_of_ascii c mod 16)) EmptyString)).

Fixpoint quote_plus (s : string) : string :=
  match s with
  | EmptyString => EmptyString
  | String c r => quote_byte c ++ quote_plus r
  end.

(** [urlencode(hints, doseq=True)] for a mapping of strings to strings. *)
Definition urlencode (hints : list (string * string)) : string :=
  join "&" (map (fun '(k, v) => quote_plus k ++ "=" ++ quote_plus v) hints).

Definition hex_value (c : ascii) : option nat :=
  let n := nat_of_ascii c in
  if in_range c 48 57 then Some (n - 48)
  else if in_range c 65 70 then Some (n - 55)
  else if in_range c 97 102 then Some (n - 87)
  else None.

(** [unquote] at the byte level ([unquote_to_bytes]): [%XX] with two hex
    digits is decoded, any other [%] kept.  [parse_qsl] then decodes these
    bytes as UTF-8 with [errors='replace']; the result here is that string's
    UTF-8 image when the bytes are valid UTF-8. *)
Fixpoint unquote (s : string) : string :=
  match s with
  | EmptyString => EmptyString
  | String c r =>
      if Ascii.eqb c "%" then
        match r with
        | String h1 (String h2 r') =>
            match hex_value h1, hex_value h2 with
            | Some a, Some b => String (ascii_of_nat (16 * a + b)) (unquote r')
            | _, _ => String c (unquote r)
            end
        | _ => String c (unquote r)
        end
      else String c (unquote r)
  end.

(** [x.replace('+', ' ')]. *)
Fixpoint plus_to_space (s : string) : string :=
  match s with
  | EmptyString => EmptyString
  | String c r => String (if Ascii.eqb c "+" then " "%char else c) (plus_to_space r)
  end.

(** The loop of [parse_qsl(qs, strict_parsing=True)]. *)
Fixpoint parse_fields (fields : list string) : py (list (string * string)) :=
  match fields with
  | [] => Ret []
  | name_value :: rest =>
      match split_once "=" name_value with
      | None => Exc ValueError
      | Some (n, v) =>
          match parse_fields rest with
          | Exc e => Exc e
          | Ret r =>
              match v with
              | EmptyString => Ret r
              | _ => Ret ((unquote (plus_to_space n), unquote (plus_to_space v)) :: r)
              end
          end
      end
  end.

Definition parse_qsl_strict (qs : string) : py (list (string * string)) :=
  match qs with
  | EmptyString => Ret []
  | _ => parse_fields (split_on "&" qs)
  end.

(** [d[k] = v] on a dict with string keys: an existing key keeps its place. *)
Fixpoint dict_set (k v : string) (d : list (string * string)) : list (string * string) :=
  match d with
  | [] => [(k, v)]
  | (k', v') :: rest =>
      if String.eqb k k' then (k', v) :: rest else (k', v') :: dict_set k v rest
  end.

(** [dict(pairs)]. *)
Definition dict_of_pairs (l : list (string * string)) : list (string * string) :=
  fold_left (fun d '(k, v) => dict_set k v d) l [].

(** ** [OCapNNode] *)

(** [<ocapn-node transport address hints>]: the transport is a [Symbol]
    (its name here), the hints a dict of strings. *)
Record ocapn_node : Type := OCapNNode {
  transport : string;
  address : string;
  hints : list (string * string)
}.

(** [OCapNNode.to_uri]. *)
Definition to_uri (n : ocapn_node) : string :=
  let q := match hints n with [] => EmptyString | h => urlencode h end in
  urlunparse "ocapn" (address n) EmptyString EmptyString q EmptyString.

(** [OCapNNode.from_uri]. *)
Definition from_uri (uri : string) : py ocapn_node :=
  match urlsplit uri with
  | Exc e => Exc e
  | Ret parsed =>
      if negb (String.eqb (scheme parsed) "ocapn") then Exc AssertionError
      else
        match parse_qsl_strict (query parsed) with
        | Exc e => Exc e
        | Ret hs =>
            match rsplit_once "." (netloc parsed) with
            | None => Exc ValueError
            | Some (designator, tr) => Ret (OCapNNode tr designator (dict_of_pairs hs))
            end
        end
  end.

(** Letters, digits, [-] and [_]: characters of an address that [urlsplit]
    passes through unchanged into the netloc. *)
Definition plain_address_char (c : ascii) : bool := is_alpha c || is_digit c || byte_in c "-_".

End Uri.

(** * More of [CapTPSession], and [OCapNNode] equality *)

Module SessionOps.
Import Syrup Session.

Definition set_next_answer_position (n : Z) (s : session) : session :=
  mk_session (is_outbound s) (location s) (captp_version s) (private_key s) (public_key s)
    (remote_public_key s) (next_import_position s) n
    (remote_seen_handoff_counts s) (sent s) (inbox s).

(** [.position] of a [DescExport] or a [DescAnswer]. *)
Definition target_position (t : target) : Z :=
  match t with DescExport p | DescAnswer p => p end.

(** [self.next_answer]. *)
Definition next_answer : M target :=
  fun s => Ok (DescAnswer (next_answer_position s))
              (set_next_answer_position (next_answer_position s + 1) s).

(** [CapTPSession.get_bootstrap_object(pipeline)].  The attribute
    [self._bootstrap_object] is passed in as [bootstrap_object] and its new
    value is returned beside the method's result. *)
Definition get_bootstrap_object (bootstrap_object : option target) (pipeline : bool)
  : M (target * option target) :=
  match bootstrap_object with
  | Some b => ret (b, bootstrap_object)
  | None =>
      answer <- next_answer ;;
      resolve_me_desc <- next_import_object ;;
      let bootstrap_op := OpBootstrap (target_position answer) resolve_me_desc in
      send_message bootstrap_op ;;
      if pipeline then ret (DescAnswer (target_position answer), None)
      else
        message <- expect_message_to [to_desc_export resolve_me_desc] ;;
        match op_args message with
        | [] => raise IndexError
        | head :: more =>
            assert_ (is_symbol head "fulfill") ;;
            match more with
            | [] => raise IndexError
            | AImport (DescImportObject p) :: _ =>
                let b := to_desc_export (DescImportObject p) in ret (b, Some b)
            | _ :: _ => raise AssertionError
            end
        end
  end.

(** [CapTPSession.fetch_object(swiss_num, pipeline=True)]: the keyword
    arguments of [OpDeliver] are evaluated in order, so [next_answer] is taken
    before [next_import_object]; the result is [fetch_msg.vow]. *)
Definition fetch_object_pipelined (bootstrap_object : option target) (swiss_num : value)
  : M (target * option target) :=
  r <- get_bootstrap_object bootstrap_object true ;;
  let '(bootstrap, cached) := r in
  answer <- next_answer ;;
  resolve_me_desc <- next_import_object ;;
  let fetch_msg := OpDeliver bootstrap [APlain (VSym "fetch"); APlain swiss_num]
                     (Some (target_position answer)) resolve_me_desc in
  send_message fetch_msg ;;
  ret (DescAnswer (target_position answer), cached).

(** ** Notions used by the proofs below *)

(** A message [receive_message] records no handoff count for. *)
Definition no_handoffs (m : op) : Prop :=
  match m with OpDeliver _ args _ _ => handoff_counts args = [] | _ => True end.

(** A delivery to one of [recipients]. *)
Definition delivers_to (recipients : list target) (m : op) : bool :=
  match m with
  | OpDeliver to _ _ _ | OpDeliverOnly to _ => existsb (target_eqb to) recipients
  | _ => false
  end.

End SessionOps.

Module UriOps.
Import Syrup Uri.

(** The hints dict as a syrup dict of strings. *)
Definition hints_value (h : list (string * string)) : value :=
  VDict (map (fun '(k, v) => (VStr k, VStr v)) h).

(** [OCapNNode.to_syrup_record]. *)
Definition node_to_syrup_record (n : ocapn_node) : value :=
  VRecord (VSym "ocapn-node") [VSym (transport n); VStr (address n); hints_value (hints n)].

(** [OCapNNode.to_syrup]. *)
Definition node_to_syrup (n : ocapn_node) : string := syrup_encode (node_to_syrup_record n).

(** [OCapNNode.__eq__] between two nodes. *)
Definition node_eqb (a b : ocapn_node) : bool := String.eqb (node_to_syrup a) (node_to_syrup b).

(** No byte of [s] is one of [stop]. *)
Definition avoids (stop s : string) : bool :=
  forallb (fun c => negb (byte_in c stop)) (list_ascii_of_string s).

(** Characters of a netloc that [urlsplit] keeps as they are: letters,
    digits, [-], [_] and [.]. *)
Definition netloc_char (c : ascii) : bool := plain_address_char c || Ascii.eqb c ".".

(** [quote_plus(k) + '=' + quote_plus(v)], one field of [urlencode]. *)
Definition encode_field (kv : string * string) : string :=
  let '(k, v) := kv in quote_plus k ++ "=" ++ quote_plus v.

End UriOps.

Module SyrupTail.
Import Syrup.

(** What is left after a container's closing byte ([EmptyString] at the end
    of the input). *)
Definition after_close (tail : string) : string :=
  match tail with EmptyString => EmptyString | String _ r => r end.

End SyrupTail.

(** * Facts about the codec *)

Module SyrupFacts.
Import Syrup.

(** ** Strings *)

Lemma str_app_assoc (a b c : string) : (a ++ b) ++ c = a ++ (b ++ c).
Proof. induction a as [|ch a IH]; simpl; [reflexivity | now rewrite IH]. Qed.

Lemma str_app_nil_r (a : string) : a ++ EmptyString = a.
Proof. induction a as [|ch a IH]; simpl; [reflexivity | now rewrite IH]. Qed.

Lemma str_length_app (a b : string) :
  String.length (a ++ b) = (String.length a + String.length b)%nat.
Proof. induction a as [|ch a IH]; simpl; [reflexivity | now rewrite IH]. Qed.

Lemma str_take_app (a b : string) : str_take (String.length a) (a ++ b) = a.
Proof.
  unfold str_take; induction a as [|ch a IH]; simpl.
  - destruct b; reflexivity.
  - now rewrite IH.
Qed.

Lemma str_drop_app (a b : string) : str_drop (String.length a) (a ++ b) = b.
Proof. induction a as [|ch a IH]; simpl; [reflexivity | exact IH]. Qed.

(** ** Decimal lengths and integers *)

Lemma read_digits_uint (u : Decimal.uint) (j : ascii) (rest acc : string) :
  is_joiner j = true ->
  read_digits (string_of_uint u ++ String j rest) acc
  = DigitsOk (acc ++ string_of_uint u) j rest.
Proof.
  unfold is_joiner; intros Hj; revert acc.
  induction u; intros acc; simpl;
    try (rewrite IHu, str_app_assoc; reflexivity).
  rewrite Hj, str_app_nil_r; reflexivity.
Qed.

Lemma digits_value_acc (u : Decimal.uint) (p : positive) :
  digits_value (string_of_uint u) (Npos p) = Npos (Pos.of_uint_acc u p).
Proof.
  revert p; induction u; intros p;
    cbn [digits_value string_of_uint Pos.of_uint_acc]; try reflexivity;
    rewrite <- IHu; f_equal;
    lazymatch goal with
    | |- context [N.of_nat (nat_of_ascii ?c)] =>
        let v := eval vm_compute in (N.of_nat (nat_of_ascii c)) in
        change (N.of_nat (nat_of_ascii c)) with v
    end; lia.
Qed.

Lemma digits_value_uint (u : Decimal.uint) :
  digits_value (string_of_uint u) 0 = N.of_uint u.
Proof.
  unfold N.of_uint; induction u;
    cbn [digits_value string_of_uint Pos.of_uint]; try reflexivity;
    rewrite <- ?digits_value_acc;
    lazymatch goal with
    | |- context [N.of_nat (nat_of_ascii ?c)] =>
        let v := eval vm_compute in (N.of_nat (nat_of_ascii c)) in
        change (N.of_nat (nat_of_ascii c)) with v
    end; simpl N.add; try reflexivity; exact IHu.
Qed.

Lemma digits_value_dec (n : N) : digits_value (dec n) 0 = n.
Proof. unfold dec; rewrite digits_value_uint; apply DecimalN.Unsigned.of_to. Qed.

Lemma dec_starts (n : N) : exists c r, dec n = String c r /\ is_digit c = true.
Proof.
  unfold dec; destruct (N.to_uint n) eqn:E; simpl; eauto.
  exfalso; pose proof (DecimalN.Unsigned.of_to n) as H; rewrite E in H.
  simpl in H; subst n; discriminate E.
Qed.

(** ** Big-endian bytes *)

Lemma be_value_app (a b : string) (acc : Z) :
  be_value (a ++ b) acc = be_value b (be_value a acc).
Proof. revert acc; induction a as [|ch a IH]; intros acc; simpl; auto. Qed.

Lemma be_bytes_length (k : nat) (z : Z) : String.length (be_bytes k z) = k.
Proof.
  revert z; induction k as [|k IH]; intros z; simpl; [reflexivity|].
  rewrite str_length_app, IH; simpl; lia.
Qed.

Lemma be_value_bytes (k : nat) (z acc : Z) :
  be_value (be_bytes k z) acc
  = (acc * 256 ^ Z.of_nat k + z mod 256 ^ Z.of_nat k)%Z.
Proof.
  revert z acc; induction k as [|k IH]; intros z acc.
  - simpl; rewrite Z.mod_1_r; lia.
  - cbn [be_bytes]; rewrite be_value_app, IH; unfold chr; cbn [be_value].
    assert (Hm : (0 <= z mod 256 < 256)%Z) by (apply Z.mod_pos_bound; lia).
    rewrite nat_ascii_embedding by lia.
    rewrite Z2Nat.id by lia.
    rewrite Nat2Z.inj_succ, Z.pow_succ_r by lia.
    rewrite Z.rem_mul_r by (try apply Z.pow_pos_nonneg; lia).
    ring.
Qed.

(** ** The first byte of an encoding *)

Lemma starter_props (c : ascii) :
  starter c = true ->
  is_ws c = false /\ byte_in c "])e" = false /\ byte_in c "}e" = false /\
  Ascii.eqb c ">" = false /\ Ascii.eqb c "$" = false /\ Ascii.eqb c "F" = false.
Proof.
  destruct c as [[] [] [] [] [] [] [] []]; vm_compute;
    first [discriminate | intros _; repeat split].
Qed.

Lemma netstring_starts (b : string) (j : ascii) :
  exists c r, netstring_encode b j = String c r /\ starter c = true.
Proof.
  unfold netstring_encode; destruct (dec_starts (N.of_nat (String.length b)))
    as (c & r & -> & Hc).
  exists c, (r ++ String j b); split; [reflexivity|]; unfold starter; now rewrite Hc.
Qed.

Lemma encode_starts (v : value) :
  exists c r, syrup_encode v = String c r /\ starter c = true.
Proof.
  destruct v as [z| b | s | s | [] | bits | l | d | a l | l]; simpl;
    try apply netstring_starts; try (eexists _, _; split; reflexivity).
  unfold encode_int; destruct (z =? 0)%Z; [eexists _, _; split; reflexivity|].
  destruct (0 <? z)%Z;
    [destruct (dec_starts (Z.to_N z)) as (c & r & -> & Hc)
    |destruct (dec_starts (Z.to_N (- z))) as (c & r & -> & Hc)];
    eexists _, _; split; try reflexivity; unfold starter; now rewrite Hc.
Qed.

Lemma encode_length_pos (v : value) : (1 <= String.length (syrup_encode v))%nat.
Proof. destruct (encode_starts v) as (c & r & -> & _); simpl; lia. Qed.

Lemma skip_ws_starter (c : ascii) (r : string) :
  starter c = true -> skip_ws (String c r) = Some (String c r).
Proof. intros H; simpl; now rewrite (proj1 (starter_props c H)). Qed.

(** ** Dispatch on the first byte *)

Lemma read_fuel_D (f : nat) (cs : bool) (r : string) :
  read_fuel (S f) cs (String "D" r) = read_packed 8 (fun b => b) r.
Proof. reflexivity. Qed.

Lemma read_fuel_F (f : nat) (cs : bool) (r : string) :
  read_fuel (S f) cs (String "F" r)
  = if cs then read_packed 4 single_to_double r
    else Raised SyrupSingleFloatsNotSupported (String "F" r).
Proof. reflexivity. Qed.

Lemma read_fuel_list (f : nat) (cs : bool) (r : string) :
  read_fuel (S f) cs (String "[" r) = read_list f cs r [].
Proof. reflexivity. Qed.

Lemma read_fuel_dict (f : nat) (cs : bool) (r : string) :
  read_fuel (S f) cs (String "{" r) = read_dict f cs r [].
Proof. reflexivity. Qed.

Lemma read_fuel_record (f : nat) (cs : bool) (r : string) :
  read_fuel (S f) cs (String "<" r)
  = obind (read_fuel f cs r) (fun label r1 => read_args f cs r1 label []).
Proof. reflexivity. Qed.

Lemma read_fuel_set (f : nat) (cs : bool) (r : string) :
  read_fuel (S f) cs (String "#" r) = read_set f cs r [].
Proof. reflexivity. Qed.

(** ** Atoms read back *)

Lemma read_fuel_digit (f : nat) (cs : bool) (s : string) :
  (exists c r, s = String c r /\ is_digit c = true) ->
  read_fuel (S f) cs s = read_atom (read_digits s EmptyString).
Proof.
  intros (c & r & -> & Hc).
  cbn [read_fuel]; rewrite skip_ws_starter by (unfold starter; now rewrite Hc).
  now rewrite Hc.
Qed.

Lemma read_netstring (f : nat) (cs : bool) (b rest : string) (j : ascii) :
  is_joiner j = true ->
  read_fuel (S f) cs (netstring_encode b j ++ rest)
  = read_atom (DigitsOk (dec (N.of_nat (String.length b))) j (b ++ rest)).
Proof.
  intros Hj; unfold netstring_encode; rewrite str_app_assoc.
  rewrite read_fuel_digit.
  - unfold dec; simpl (String j b ++ rest); now rewrite read_digits_uint by exact Hj.
  - destruct (dec_starts (N.of_nat (String.length b))) as (c & r & Hcr & Hc).
    rewrite Hcr; simpl; eauto.
Qed.

Lemma netstring_payload (b rest : string) :
  let n := digits_value (dec (N.of_nat (String.length b))) 0 in
  str_take (N.to_nat n) (b ++ rest) = b /\ str_drop (N.to_nat n) (b ++ rest) = rest.
Proof.
  simpl; rewrite digits_value_dec, Nat2N.id; split;
    [apply str_take_app | apply str_drop_app].
Qed.

Lemma read_dec (f : nat) (cs : bool) (n : N) (j : ascii) (rest : string) :
  is_joiner j = true ->
  read_fuel (S f) cs (dec n ++ String j rest) = read_atom (DigitsOk (dec n) j rest).
Proof.
  intros Hj; rewrite read_fuel_digit.
  - unfold dec; now rewrite read_digits_uint by exact Hj.
  - destruct (dec_starts n) as (c & r & Hcr & Hc); rewrite Hcr; simpl; eauto.
Qed.

Lemma read_int (f : nat) (cs : bool) (z : Z) (rest : string) :
  read_fuel (S f) cs (encode_int z ++ rest) = Done (VInt z) rest.
Proof.
  unfold encode_int; destruct (Z.eqb_spec z 0) as [->|Hz]; [reflexivity|].
  destruct (Z.ltb_spec 0 z) as [Hp|Hn]; rewrite str_app_assoc; simpl ("+" ++ rest);
    simpl ("-" ++ rest); rewrite read_dec by reflexivity; cbn -[dec];
    rewrite digits_value_dec; f_equal; f_equal; lia.
Qed.

Lemma read_bytes (f : nat) (cs : bool) (b rest : string) :
  read_fuel (S f) cs (syrup_encode (VBytes b) ++ rest) = Done (VBytes b) rest.
Proof.
  simpl syrup_encode; rewrite read_netstring by reflexivity.
  destruct (netstring_payload b rest) as [H1 H2]; cbn -[dec digits_value].
  now rewrite H1, H2.
Qed.

Lemma read_str (f : nat) (cs : bool) (s rest : string) :
  utf8_valid s = true ->
  read_fuel (S f) cs (syrup_encode (VStr s) ++ rest) = Done (VStr s) rest.
Proof.
  intros Hu; simpl syrup_encode; rewrite read_netstring by reflexivity.
  destruct (netstring_payload s rest) as [H1 H2]; cbn -[dec digits_value].
  now rewrite H1, H2, Hu.
Qed.

Lemma read_sym (f : nat) (cs : bool) (s rest : string) :
  utf8_valid s = true ->
  read_fuel (S f) cs (syrup_encode (VSym s) ++ rest) = Done (VSym s) rest.
Proof.
  intros Hu; simpl syrup_encode; rewrite read_netstring by reflexivity.
  destruct (netstring_payload s rest) as [H1 H2]; cbn -[dec digits_value].
  now rewrite H1, H2, Hu.
Qed.

Lemma read_bool (f : nat) (cs : bool) (b : bool) (rest : string) :
  read_fuel (S f) cs (syrup_encode (VBool b) ++ rest) = Done (VBool b) rest.
Proof. destruct b; reflexivity. Qed.

Lemma read_packed_bytes (k : nat) (conv : Z -> Z) (bits : Z) (rest : string) :
  read_packed k conv (be_bytes k bits ++ rest)
  = Done (VFloat (conv (bits mod 256 ^ Z.of_nat k)%Z)) rest.
Proof.
  unfold read_packed.
  assert (H1 : str_take k (be_bytes k bits ++ rest) = be_bytes k bits)
    by (rewrite <- (be_bytes_length k bits) at 1; apply str_take_app).
  assert (H2 : str_drop k (be_bytes k bits ++ rest) = rest)
    by (rewrite <- (be_bytes_length k bits) at 1; apply str_drop_app).
  rewrite H1, H2, be_bytes_length, Nat.eqb_refl, be_value_bytes.
  f_equal; f_equal; f_equal; lia.
Qed.

Lemma read_float (f : nat) (cs : bool) (bits : Z) (rest : string) :
  (0 <= bits < 2 ^ 64)%Z ->
  read_fuel (S f) cs (syrup_encode (VFloat bits) ++ rest) = Done (VFloat bits) rest.
Proof.
  intros Hb; change (syrup_encode (VFloat bits) ++ rest)
    with (String "D" (be_bytes 8 bits ++ rest)).
  rewrite read_fuel_D, read_packed_bytes; f_equal; f_equal; apply Z.mod_small; exact Hb.
Qed.

(** ** Python equality on keys is symmetric *)

Lemma float_eqb_sym (a b : Z) : float_eqb a b = float_eqb b a.
Proof.
  unfold float_eqb; rewrite (Z.eqb_sym a b).
  destruct (f64_is_nan a), (f64_is_nan b), (f64_is_zero a), (f64_is_zero b),
    (b =? a)%Z; reflexivity.
Qed.

Lemma str_eqb_sym (a b : string) : String.eqb a b = String.eqb b a.
Proof.
  destruct (String.eqb_spec a b), (String.eqb_spec b a); congruence.
Qed.

Lemma py_key_eq_sym (a b : value) : py_key_eq a b = py_key_eq b a.
Proof.
  destruct a, b; simpl; try reflexivity;
    try apply Z.eqb_sym; try apply float_eqb_sym; try apply str_eqb_sym.
  destruct b, b0; reflexivity.
Qed.

(** ** [pairwise_distinct] does not depend on the order *)

Lemma forallb_perm {A : Type} (p : A -> bool) (l l' : list A) :
  Permutation l l' -> forallb p l = forallb p l'.
Proof.
  induction 1; simpl; try congruence.
  destruct (p x), (p y); reflexivity.
Qed.

Lemma pairwise_distinct_perm (l l' : list value) :
  Permutation l l' -> pairwise_distinct l = pairwise_distinct l'.
Proof.
  induction 1; simpl.
  - reflexivity.
  - rewrite IHPermutation, (forallb_perm _ _ _ H); reflexivity.
  - rewrite (py_key_eq_sym x y).
    destruct (py_key_eq y x), (forallb (fun z => negb (py_key_eq y z)) l),
      (forallb (fun z => negb (py_key_eq x z)) l), (pairwise_distinct l); reflexivity.
  - congruence.
Qed.

Lemma pairwise_distinct_mid (a b : list value) (x : value) :
  pairwise_distinct (a ++ x :: b) = true ->
  forallb (fun y => negb (py_key_eq x y)) a = true.
Proof.
  induction a as [|y a IH]; simpl; [reflexivity|].
  intros H; apply andb_prop in H as [H1 H2].
  rewrite forallb_app in H1; simpl in H1.
  apply andb_prop in H1 as [_ H1]; apply andb_prop in H1 as [H1 _].
  rewrite py_key_eq_sym, H1, IH by exact H2; reflexivity.
Qed.

(** ** Inserting fresh keys and elements appends them *)

Lemma dict_setitem_fresh (d : list (value * value)) (k x : value) :
  forallb (fun y => negb (py_key_eq k y)) (map fst d) = true ->
  dict_setitem d k x = (d ++ [(k, x)])%list.
Proof.
  induction d as [|[k' x'] d IH]; simpl; [reflexivity|].
  intros H; apply andb_prop in H as [H1 H2].
  rewrite py_key_eq_sym; destruct (py_key_eq k k'); [discriminate|].
  now rewrite IH.
Qed.

Lemma set_add_fresh (s : list value) (x : value) :
  forallb (fun y => negb (py_key_eq x y)) s = true -> set_add s x = (s ++ [x])%list.
Proof.
  unfold set_add; intros H.
  replace (existsb (py_key_eq x) s) with false; [reflexivity|].
  symmetry; induction s as [|y s IH]; simpl in *; [reflexivity|].
  apply andb_prop in H as [H1 H2]; destruct (py_key_eq x y); [discriminate|].
  exact (IH H2).
Qed.

Lemma same_value_hashable (v' v : value) :
  is_hashable v = true -> same_value v' v -> v' = v.
Proof. intros Hh Hs; inversion Hs; subst; try reflexivity; discriminate. Qed.

(** ** The stable sorts permute their input *)

Lemma insert_pair_split (p : string * string) (l : list (string * string)) :
  exists l1 l2, l = (l1 ++ l2)%list /\ insert_pair p l = (l1 ++ p :: l2)%list.
Proof.
  induction l as [|q l (l1 & l2 & -> & IH)]; simpl.
  - exists [], []; split; reflexivity.
  - destruct (bytes_leb (fst p) (fst q)).
    + exists [], (q :: l1 ++ l2)%list; split; reflexivity.
    + exists (q :: l1), l2; rewrite IH; split; reflexivity.
Qed.

Lemma sort_pairs_map {A : Type} (f : A -> string * string) (l : list A) :
  exists l', Permutation l l' /\ sort_pairs (map f l) = map f l'.
Proof.
  induction l as [|a l (l' & Hp & IH)]; [exists []; split; constructor|].
  unfold sort_pairs in *; simpl; rewrite IH.
  destruct (insert_pair_split (f a) (map f l')) as (m1 & m2 & Hm & ->).
  apply map_eq_app in Hm as (l1 & l2 & -> & <- & <-).
  exists (l1 ++ a :: l2)%list; split.
  - rewrite <- Permutation_middle; constructor; exact Hp.
  - rewrite map_app; reflexivity.
Qed.

Lemma insert_str_split (s : string) (l : list string) :
  exists l1 l2, l = (l1 ++ l2)%list /\ insert_str s l = (l1 ++ s :: l2)%list.
Proof.
  induction l as [|t l (l1 & l2 & -> & IH)]; simpl.
  - exists [], []; split; reflexivity.
  - destruct (bytes_leb s t).
    + exists [], (t :: l1 ++ l2)%list; split; reflexivity.
    + exists (t :: l1), l2; rewrite IH; split; reflexivity.
Qed.

Lemma sort_strings_map {A : Type} (f : A -> string) (l : list A) :
  exists l', Permutation l l' /\ sort_strings (map f l) = map f l'.
Proof.
  induction l as [|a l (l' & Hp & IH)]; [exists []; split; constructor|].
  unfold sort_strings in *; simpl; rewrite IH.
  destruct (insert_str_split (f a) (map f l')) as (m1 & m2 & Hm & ->).
  apply map_eq_app in Hm as (l1 & l2 & -> & <- & <-).
  exists (l1 ++ a :: l2)%list; split.
  - rewrite <- Permutation_middle; constructor; exact Hp.
  - rewrite map_app; reflexivity.
Qed.

(** ** Reading nested values back *)

Lemma encode_split (v : value) (rest : string) :
  exists c r, syrup_encode v ++ rest = String c r /\ starter c = true.
Proof.
  destruct (encode_starts v) as (c & r & -> & Hc); simpl; eauto.
Qed.

Lemma read_list_step (f : nat) (cs : bool) (v : value) (rest : string) (acc : list value) :
  read_list (S f) cs (syrup_encode v ++ rest) acc
  = obind (read_fuel f cs (syrup_encode v ++ rest))
      (fun x s' => read_list f cs s' (x :: acc)).
Proof.
  destruct (encode_split v rest) as (c & r & -> & Hc).
  cbn [read_list]; now rewrite (proj1 (proj2 (starter_props c Hc))).
Qed.

Lemma read_list_items (cs : bool) (l : list value) :
  Forall (reads_back cs) l ->
  forall acc fuel rest,
  (2 * String.length (concat_str (map syrup_encode l)) + 2 <= fuel)%nat ->
  exists l', read_list fuel cs (concat_str (map syrup_encode l) ++ String "]" rest) acc
             = Done (VList (rev acc ++ l')) rest /\ Forall2 same_value l' l.
Proof.
  induction 1 as [|x l Hx Hl IH]; intros acc fuel rest Hf.
  - destruct fuel as [|f]; [lia|].
    exists []; rewrite app_nil_r; split; [reflexivity | constructor].
  - destruct fuel as [|f]; [lia|]; simpl map; simpl concat_str.
    simpl map in Hf; simpl concat_str in Hf; rewrite str_length_app in Hf.
    pose proof (encode_length_pos x).
    rewrite str_app_assoc, read_list_step.
    destruct (Hx f (concat_str (map syrup_encode l) ++ String "]" rest)) as (x' & -> & Hsx);
      [lia|]; simpl obind.
    destruct (IH (x' :: acc) f rest) as (l' & -> & Hl'); [lia|].
    exists (x' :: l'); split; [|constructor; assumption].
    simpl rev; rewrite <- app_assoc; reflexivity.
Qed.

Lemma read_args_step (f : nat) (cs : bool) (v label : value) (rest : string)
    (acc : list value) :
  read_args (S f) cs (syrup_encode v ++ rest) label acc
  = obind (read_fuel f cs (syrup_encode v ++ rest))
      (fun x s' => read_args f cs s' label (x :: acc)).
Proof.
  destruct (encode_split v rest) as (c & r & -> & Hc).
  cbn [read_args]; now rewrite (proj1 (proj2 (proj2 (proj2 (starter_props c Hc))))).
Qed.

Lemma read_args_items (cs : bool) (label : value) (l : list value) :
  Forall (reads_back cs) l ->
  forall acc fuel rest,
  (2 * String.length (concat_str (map syrup_encode l)) + 2 <= fuel)%nat ->
  exists l', read_args fuel cs (concat_str (map syrup_encode l) ++ String ">" rest) label acc
             = Done (VRecord label (rev acc ++ l')) rest /\ Forall2 same_value l' l.
Proof.
  induction 1 as [|x l Hx Hl IH]; intros acc fuel rest Hf.
  - destruct fuel as [|f]; [lia|].
    exists []; rewrite app_nil_r; split; [reflexivity | constructor].
  - destruct fuel as [|f]; [lia|]; simpl map; simpl concat_str.
    simpl map in Hf; simpl concat_str in Hf; rewrite str_length_app in Hf.
    pose proof (encode_length_pos x).
    rewrite str_app_assoc, read_args_step.
    destruct (Hx f (concat_str (map syrup_encode l) ++ String ">" rest)) as (x' & -> & Hsx);
      [lia|]; simpl obind.
    destruct (IH (x' :: acc) f rest) as (l' & -> & Hl'); [lia|].
    exists (x' :: l'); split; [|constructor; assumption].
    simpl rev; rewrite <- app_assoc; reflexivity.
Qed.

Lemma read_set_step (f : nat) (cs : bool) (v : value) (rest : string) (acc : list value) :
  read_set (S f) cs (syrup_encode v ++ rest) acc
  = obind (read_fuel f cs (syrup_encode v ++ rest))
      (fun x s' => if is_hashable x then read_set f cs s' (set_add acc x)
                   else Raised TypeError s').
Proof.
  destruct (encode_split v rest) as (c & r & -> & Hc).
  cbn [read_set]; now rewrite (proj1 (proj2 (proj2 (proj2 (proj2 (starter_props c Hc)))))).
Qed.

Lemma read_set_items (cs : bool) (l : list value) :
  Forall (fun x => is_hashable x = true /\ reads_back cs x) l ->
  forall acc fuel rest,
  pairwise_distinct (acc ++ l) = true ->
  (2 * String.length (concat_str (map syrup_encode l)) + 2 <= fuel)%nat ->
  read_set fuel cs (concat_str (map syrup_encode l) ++ String "$" rest) acc
  = Done (VSet (acc ++ l)) rest.
Proof.
  induction 1 as [|x l [Hh Hx] Hl IH]; intros acc fuel rest Hd Hf.
  - destruct fuel as [|f]; [lia|]; rewrite app_nil_r; reflexivity.
  - destruct fuel as [|f]; [lia|]; simpl map; simpl concat_str.
    simpl map in Hf; simpl concat_str in Hf; rewrite str_length_app in Hf.
    pose proof (encode_length_pos x).
    rewrite str_app_assoc, read_set_step.
    destruct (Hx f (concat_str (map syrup_encode l) ++ String "$" rest)) as (x' & -> & Hsx);
      [lia|]; simpl obind.
    apply same_value_hashable in Hsx as ->; [|exact Hh].
    rewrite Hh, set_add_fresh by exact (pairwise_distinct_mid acc l x Hd).
    rewrite IH; [now rewrite <- app_assoc | now rewrite <- app_assoc | lia].
Qed.

Lemma read_dict_step (f : nat) (cs : bool) (v : value) (rest : string)
    (d : list (value * value)) :
  read_dict (S f) cs (syrup_encode v ++ rest) d
  = obind (read_fuel f cs (syrup_encode v ++ rest)) (fun k s1 =>
    obind (read_fuel f cs s1) (fun x s2 =>
    if is_hashable k then read_dict f cs s2 (dict_setitem d k x)
    else Raised TypeError s2)).
Proof.
  destruct (encode_split v rest) as (c & r & -> & Hc).
  cbn [read_dict]; now rewrite (proj1 (proj2 (proj2 (starter_props c Hc)))).
Qed.

Lemma read_dict_items (cs : bool) (d : list (value * value)) :
  Forall (fun kv => is_hashable (fst kv) = true /\ reads_back cs (fst kv)
                    /\ reads_back cs (snd kv)) d ->
  forall acc fuel rest,
  pairwise_distinct (map fst acc ++ map fst d) = true ->
  (2 * String.length (concat_str (map encode_entry d)) + 2 <= fuel)%nat ->
  exists d1, read_dict fuel cs (concat_str (map encode_entry d) ++ String "}" rest) acc
             = Done (VDict (acc ++ d1)) rest /\ Forall2 same_entry d1 d.
Proof.
  induction 1 as [|[k x] d [Hh [Hk Hx]] Hd IH]; intros acc fuel rest Hp Hf.
  - destruct fuel as [|f]; [lia|].
    exists []; rewrite app_nil_r; split; [reflexivity | constructor].
  - destruct fuel as [|f]; [lia|]; simpl map; simpl concat_str; simpl fst in *;
      simpl snd in *.
    simpl map in Hf; simpl concat_str in Hf; unfold encode_entry at 1 in Hf;
      simpl fst in Hf; simpl snd in Hf; rewrite !str_length_app in Hf.
    pose proof (encode_length_pos k).
    unfold encode_entry at 1; simpl fst; simpl snd.
    rewrite !str_app_assoc, read_dict_step.
    destruct (Hk f (syrup_encode x ++ concat_str (map encode_entry d) ++ String "}" rest))
      as (k' & -> & Hsk); [lia|]; simpl obind.
    apply same_value_hashable in Hsk as ->; [|exact Hh].
    destruct (Hx f (concat_str (map encode_entry d) ++ String "}" rest))
      as (x' & -> & Hsx); [lia|]; simpl obind.
    simpl map in Hp.
    rewrite Hh, dict_setitem_fresh by exact (pairwise_distinct_mid _ _ k Hp).
    destruct (IH (acc ++ [(k, x')])%list f rest) as (d1 & -> & Hd1).
    + rewrite map_app, <- app_assoc; exact Hp.
    + lia.
    + exists ((k, x') :: d1); rewrite <- app_assoc; split; [reflexivity|].
      constructor; [split; [reflexivity | exact Hsx] | exact Hd1].
Qed.

Lemma forall_wf (P : value -> Prop) (p : value -> bool) (l : list value) :
  Forall (fun x => p x = true -> P x) l -> forallb p l = true -> Forall P l.
Proof.
  rewrite !Forall_forall, forallb_forall; intros H Hb x Hx; exact (H x Hx (Hb x Hx)).
Qed.

Lemma bracket_length (o e : ascii) (c : string) :
  String.length (String o EmptyString ++ c ++ String e EmptyString)
  = (2 + String.length c)%nat.
Proof. cbn [String.length append]; rewrite str_length_app; simpl; lia. Qed.

Lemma bracket_app (o e : ascii) (c rest : string) :
  (String o EmptyString ++ c ++ String e EmptyString) ++ rest = String o (c ++ String e rest).
Proof. cbn [append]; now rewrite str_app_assoc. Qed.

Theorem read_encode (cs : bool) (v : value) : wf v = true -> reads_back cs v.
Proof.
  induction v as [z|b|s|s|b|bits|l IH|d IH|a l IHa IH|l IH] using value_ind';
    intros Hw fuel rest Hf; destruct fuel as [|f]; try lia; simpl wf in Hw.
  - exists (VInt z); split; [apply read_int | now constructor].
  - exists (VBytes b); split; [apply read_bytes | now constructor].
  - exists (VStr s); split; [now apply read_str | now constructor].
  - exists (VSym s); split; [now apply read_sym | now constructor].
  - exists (VBool b); split; [apply read_bool | now constructor].
  - apply andb_prop in Hw as [H1 H2]; apply Z.leb_le in H1; apply Z.ltb_lt in H2.
    exists (VFloat bits); split; [apply read_float; lia | now constructor].
  - apply (forall_wf _ wf) in IH; [|exact Hw].
    change (syrup_encode (VList l))
      with ("[" ++ concat_str (map syrup_encode l) ++ "]") in *.
    rewrite bracket_app, read_fuel_list; rewrite bracket_length in Hf.
    destruct (read_list_items cs l IH [] f rest) as (l' & -> & Hl'); [lia|].
    exists (VList l'); split; [reflexivity | now constructor].
  - apply andb_prop in Hw as [Hw Hd].
    destruct (sort_pairs_map (fun '(k, x) => (syrup_encode k, syrup_encode x)) d)
      as (d' & Hp & Hs).
    change (syrup_encode (VDict d))
      with ("{" ++ concat_str (map (fun ek => fst ek ++ snd ek)
                 (sort_pairs (map (fun '(k, x) => (syrup_encode k, syrup_encode x)) d)))
           ++ "}") in *.
    rewrite Hs, map_map in *.
    replace (map _ d') with (map encode_entry d') in *
      by (apply map_ext; intros [k x]; reflexivity).
    rewrite bracket_app, read_fuel_dict; rewrite bracket_length in Hf.
    assert (Hd' : Forall (fun kv => is_hashable (fst kv) = true /\ reads_back cs (fst kv)
                                   /\ reads_back cs (snd kv)) d').
    { rewrite Forall_forall in IH |- *; rewrite forallb_forall in Hw.
      intros kv Hkv; apply (Permutation_in _ (Permutation_sym Hp)) in Hkv.
      specialize (Hw kv Hkv); destruct (IH kv Hkv) as [Ik Ix].
      apply andb_prop in Hw as [Hw Hx]; apply andb_prop in Hw as [Hh Hk].
      repeat split; auto. }
    destruct (read_dict_items cs d' Hd' [] f rest) as (d1 & -> & Hd1).
    + simpl; rewrite <- (pairwise_distinct_perm _ _ (Permutation_map fst Hp)); exact Hd.
    + lia.
    + exists (VDict d1); split; [reflexivity|].
      apply (same_dict d1 d' d); [exact Hd1 | apply Permutation_sym, Hp].
  - apply andb_prop in Hw as [Ha Hl].
    apply (forall_wf _ wf) in IH; [|exact Hl].
    change (syrup_encode (VRecord a l) ++ rest)
      with (String "<" ((syrup_encode a ++ concat_str (map syrup_encode l) ++ ">") ++ rest))
      in *.
    change (syrup_encode (VRecord a l))
      with ("<" ++ syrup_encode a ++ concat_str (map syrup_encode l) ++ ">") in Hf.
    rewrite !str_length_app in Hf; cbn [String.length append] in Hf.
    pose proof (encode_length_pos a).
    rewrite !str_app_assoc, read_fuel_record; change (">" ++ rest) with (String ">" rest).
    destruct (IHa Ha f (concat_str (map syrup_encode l) ++ String ">" rest))
      as (a' & -> & Hsa); [lia|]; simpl obind.
    destruct (read_args_items cs a' l IH [] f rest) as (l' & -> & Hl'); [lia|].
    exists (VRecord a' l'); split; [reflexivity | now constructor].
  - apply andb_prop in Hw as [Hw Hd].
    destruct (sort_strings_map syrup_encode l) as (l' & Hp & Hs).
    change (syrup_encode (VSet l))
      with ("#" ++ concat_str (sort_strings (map syrup_encode l)) ++ "$") in *.
    rewrite Hs in *.
    rewrite bracket_app, read_fuel_set; rewrite bracket_length in Hf.
    assert (Hl' : Forall (fun x => is_hashable x = true /\ reads_back cs x) l').
    { rewrite Forall_forall in IH |- *; rewrite forallb_forall in Hw.
      intros x Hx; apply (Permutation_in _ (Permutation_sym Hp)) in Hx.
      specialize (Hw x Hx); apply andb_prop in Hw as [Hh Hx'].
      split; [exact Hh | exact (IH x Hx Hx')]. }
    rewrite (read_set_items cs l' Hl' [] f rest).
    + exists (VSet l'); split; [reflexivity|].
      constructor; apply Permutation_sym, Hp.
    + simpl; rewrite <- (pairwise_distinct_perm _ _ Hp); exact Hd.
    + lia.
Qed.

(** ** Byte order and the sorted outputs *)

Lemma bytes_leb_trans (a b c : string) :
  bytes_leb a b = true -> bytes_leb b c = true -> bytes_leb a c = true.
Proof.
  unfold bytes_leb, String.leb; revert b c.
  induction a as [|x a IH]; intros [|y b] [|z c]; simpl; try discriminate; auto.
  unfold Ascii.compare.
  destruct (N.compare_spec (N_of_ascii x) (N_of_ascii y));
    destruct (N.compare_spec (N_of_ascii y) (N_of_ascii z));
    destruct (N.compare_spec (N_of_ascii x) (N_of_ascii z));
    try lia; try discriminate; auto; eauto.
Qed.

Lemma bytes_leb_total (a b : string) : bytes_leb a b = false -> bytes_leb b a = true.
Proof. unfold bytes_leb; destruct (String.leb_total a b); congruence. Qed.

Lemma insert_pair_sorted (p : string * string) (l : list (string * string)) :
  Sorted key_le (map fst l) -> Sorted key_le (map fst (insert_pair p l)).
Proof.
  induction l as [|q l IH]; simpl; intros Hs; [repeat constructor|].
  destruct (bytes_leb (fst p) (fst q)) eqn:E; simpl.
  - constructor; [exact Hs | constructor; exact E].
  - apply Sorted_inv in Hs as [Hs Hh]; constructor; [now apply IH|].
    destruct l as [|q' l]; simpl in *.
    + constructor; now apply bytes_leb_total.
    + destruct (bytes_leb (fst p) (fst q')); simpl; constructor;
        [now apply bytes_leb_total | now inversion Hh].
Qed.

Lemma sort_pairs_sorted (l : list (string * string)) :
  Sorted key_le (map fst (sort_pairs l)).
Proof.
  induction l as [|p l IH]; simpl; [constructor | now apply insert_pair_sorted].
Qed.

Lemma insert_str_sorted (s : string) (l : list string) :
  Sorted key_le l -> Sorted key_le (insert_str s l).
Proof.
  induction l as [|t l IH]; simpl; intros Hs; [repeat constructor|].
  destruct (bytes_leb s t) eqn:E.
  - constructor; [exact Hs | constructor; exact E].
  - apply Sorted_inv in Hs as [Hs Hh]; constructor; [now apply IH|].
    destruct l as [|t' l]; simpl in *.
    + constructor; now apply bytes_leb_total.
    + destruct (bytes_leb s t'); constructor;
        [now apply bytes_leb_total | now inversion Hh].
Qed.

Lemma sort_strings_sorted (l : list string) : Sorted key_le (sort_strings l).
Proof.
  induction l as [|s l IH]; simpl; [constructor | now apply insert_str_sorted].
Qed.

Lemma key_le_strongly {A : Type} (f : A -> string) (l : list A) :
  Sorted key_le (map f l) -> StronglySorted (fun x y => key_le (f x) (f y)) l.
Proof.
  intros Hs; apply Sorted_StronglySorted in Hs;
    [|intros a b c; unfold key_le; apply bytes_leb_trans].
  induction l as [|x l IH]; simpl in Hs; constructor;
    apply StronglySorted_inv in Hs as [Hs Hf].
  - now apply IH.
  - rewrite Forall_forall in *; intros y Hy; apply Hf, in_map, Hy.
Qed.

(** Two lists sorted by a key with no key twice are equal when they are
    permutations of each other. *)
Lemma sorted_perm_unique {A : Type} (f : A -> string) (l1 l2 : list A) :
  StronglySorted (fun x y => key_le (f x) (f y)) l1 ->
  StronglySorted (fun x y => key_le (f x) (f y)) l2 ->
  NoDup (map f l1) -> Permutation l1 l2 -> l1 = l2.
Proof.
  revert l2; induction l1 as [|a l1 IH]; intros l2 S1 S2 Hn Hp.
  - now apply Permutation_nil in Hp.
  - destruct l2 as [|b l2]; [now apply Permutation_sym, Permutation_nil in Hp|].
    apply StronglySorted_inv in S1 as [S1 F1]; apply StronglySorted_inv in S2 as [S2 F2].
    simpl in Hn; apply NoDup_cons_iff in Hn as [Ha Hn].
    assert (a = b) as <-.
    { destruct (Permutation_in a Hp (or_introl eq_refl)) as [E|Ha2]; [congruence|].
      destruct (Permutation_in b (Permutation_sym Hp) (or_introl eq_refl))
        as [E|Hb1]; [congruence|].
      rewrite Forall_forall in F1, F2.
      specialize (F1 b Hb1); specialize (F2 a Ha2); unfold key_le, bytes_leb in *.
      exfalso; apply Ha; rewrite (String.leb_antisym _ _ F1 F2); apply in_map, Hb1. }
    f_equal; apply IH; auto; now apply Permutation_cons_inv in Hp.
Qed.

(** ** Encoding is injective on well-formed hashable values *)

Lemma encode_injective (a b : value) :
  wf a = true -> wf b = true -> is_hashable a = true -> is_hashable b = true ->
  syrup_encode a = syrup_encode b -> a = b.
Proof.
  intros Wa Wb Ha Hb He.
  destruct (read_encode false a Wa (2 * String.length (syrup_encode a) + 1) "" (le_n _))
    as (a' & Ra & Sa).
  destruct (read_encode false b Wb (2 * String.length (syrup_encode a) + 1) ""
              ltac:(rewrite He; lia)) as (b' & Rb & Sb).
  rewrite <- He, Ra in Rb; injection Rb as <-.
  apply same_value_hashable in Sa; [|exact Ha].
  apply same_value_hashable in Sb; [|exact Hb].
  congruence.
Qed.

Lemma sorted_strings_unique (l1 l2 : list string) :
  StronglySorted key_le l1 -> StronglySorted key_le l2 -> Permutation l1 l2 -> l1 = l2.
Proof.
  revert l2; induction l1 as [|a l1 IH]; intros l2 S1 S2 Hp.
  - now apply Permutation_nil in Hp.
  - destruct l2 as [|b l2]; [now apply Permutation_sym, Permutation_nil in Hp|].
    apply StronglySorted_inv in S1 as [S1 F1]; apply StronglySorted_inv in S2 as [S2 F2].
    assert (a = b) as <-.
    { destruct (Permutation_in a Hp (or_introl eq_refl)) as [E|Ha2]; [congruence|].
      destruct (Permutation_in b (Permutation_sym Hp) (or_introl eq_refl))
        as [E|Hb1]; [congruence|].
      rewrite Forall_forall in F1, F2.
      exact (String.leb_antisym _ _ (F1 b Hb1) (F2 a Ha2)). }
    f_equal; apply IH; auto; now apply Permutation_cons_inv in Hp.
Qed.

Lemma map_nodup_inj {A B : Type} (f : A -> B) (l : list A) :
  NoDup l -> (forall x y, In x l -> In y l -> f x = f y -> x = y) -> NoDup (map f l).
Proof.
  induction l as [|a l IH]; simpl; intros Hn Hi; [constructor|].
  apply NoDup_cons_iff in Hn as [Ha Hn]; constructor.
  - intros Hin; apply in_map_iff in Hin as (y & Hy & Hyl).
    apply Ha; rewrite (Hi a y (or_introl eq_refl) (or_intror Hyl) (eq_sym Hy)); exact Hyl.
  - apply IH; [exact Hn|]; intros x y Hx Hy; apply Hi; right; assumption.
Qed.

Lemma encode_dict_shape (d : list (value * value)) :
  syrup_encode (VDict d)
  = "{" ++ concat_str (map (fun ek => fst ek ++ snd ek) (sort_pairs (map encode_kv d))) ++ "}".
Proof.
  replace (map encode_kv d)
    with (map (fun '(k, x) => (syrup_encode k, syrup_encode x)) d)
    by (apply map_ext; now intros [k x]).
  reflexivity.
Qed.

Lemma encode_dict_sorted (d : list (value * value)) :
  exists d', Permutation d d' /\
    syrup_encode (VDict d) = "{" ++ concat_str (map encode_entry d') ++ "}" /\
    Sorted key_le (map (fun kv => syrup_encode (fst kv)) d').
Proof.
  destruct (sort_pairs_map encode_kv d) as (d' & Hp & Hs).
  exists d'; split; [exact Hp|]; split.
  - rewrite encode_dict_shape, Hs, map_map; reflexivity.
  - pose proof (sort_pairs_sorted (map encode_kv d)) as H; rewrite Hs, map_map in H; exact H.
Qed.

Lemma encode_set_sorted (l : list value) :
  exists l', Permutation l l' /\
    syrup_encode (VSet l) = "#" ++ concat_str (map syrup_encode l') ++ "$" /\
    Sorted key_le (map syrup_encode l').
Proof.
  destruct (sort_strings_map syrup_encode l) as (l' & Hp & Hs).
  exists l'; split; [exact Hp|]; split.
  - simpl; now rewrite Hs.
  - rewrite <- Hs; apply sort_strings_sorted.
Qed.

Lemma encode_set_perm (l1 l2 : list value) :
  Permutation l1 l2 -> syrup_encode (VSet l1) = syrup_encode (VSet l2).
Proof.
  intros Hp; simpl; f_equal; f_equal; f_equal.
  apply sorted_strings_unique.
  - apply Sorted_StronglySorted; [intros a b c; apply bytes_leb_trans | apply sort_strings_sorted].
  - apply Sorted_StronglySorted; [intros a b c; apply bytes_leb_trans | apply sort_strings_sorted].
  - destruct (sort_strings_map syrup_encode l1) as (m1 & P1 & ->).
    destruct (sort_strings_map syrup_encode l2) as (m2 & P2 & ->).
    apply Permutation_map; rewrite <- P1, <- P2; exact Hp.
Qed.

Lemma encode_dict_perm (d1 d2 : list (value * value)) :
  wf (VDict d1) = true -> NoDup (map fst d1) -> Permutation d1 d2 ->
  syrup_encode (VDict d1) = syrup_encode (VDict d2).
Proof.
  intros Hw Hn Hp; rewrite !encode_dict_shape; do 4 f_equal.
  simpl in Hw; apply andb_prop in Hw as [Hw _]; rewrite forallb_forall in Hw.
  destruct (sort_pairs_map encode_kv d1) as (m1 & P1 & E1).
  destruct (sort_pairs_map encode_kv d2) as (m2 & P2 & E2).
  apply (sorted_perm_unique fst).
  - apply key_le_strongly, sort_pairs_sorted.
  - apply key_le_strongly, sort_pairs_sorted.
  - rewrite E1, map_map.
    replace (map _ m1) with (map syrup_encode (map fst m1))
      by (rewrite map_map; reflexivity).
    apply map_nodup_inj.
    + apply (Permutation_NoDup (Permutation_map fst P1)), Hn.
    + intros k k' Hk Hk' He.
      apply (Permutation_in _ (Permutation_map fst (Permutation_sym P1))) in Hk, Hk'.
      apply in_map_iff in Hk as ([k1 x1] & <- & Hk); apply in_map_iff in Hk' as ([k2 x2] & <- & Hk').
      pose proof (Hw _ Hk) as W1; pose proof (Hw _ Hk') as W2; simpl in W1, W2 |- *.
      apply andb_prop in W1 as [W1 _]; apply andb_prop in W1 as [H1 W1].
      apply andb_prop in W2 as [W2 _]; apply andb_prop in W2 as [H2 W2].
      now apply encode_injective.
  - rewrite E1, E2; apply Permutation_map; rewrite <- P1, <- P2; exact Hp.
Qed.

(** ** Unknown bytes and the [F] tag *)

Lemma syrup_tag_props (c : ascii) :
  syrup_tag c = false ->
  is_digit c = false /\ byte_in c "[(l" = false /\ byte_in c "{d" = false /\
  Ascii.eqb c "<" = false /\ Ascii.eqb c "F" = false /\ Ascii.eqb c "D" = false /\
  Ascii.eqb c "f" = false /\ Ascii.eqb c "t" = false /\ Ascii.eqb c "#" = false.
Proof.
  destruct c as [[] [] [] [] [] [] [] []]; vm_compute;
    first [discriminate | intros _; repeat split].
Qed.

Lemma read_packed_app (k : nat) (conv : Z -> Z) (b rest : string) :
  String.length b = k -> read_packed k conv (b ++ rest) = Done (VFloat (conv (be_value b 0))) rest.
Proof.
  intros <-; unfold read_packed; rewrite str_take_app, str_drop_app, Nat.eqb_refl.
  reflexivity.
Qed.

End SyrupFacts.

(** * Facts about [urllib.parse] on OCapN URIs *)

Module UriFacts.
Import Syrup SyrupFacts Uri.

Lemma plain_no_byte (a : string) (ch : ascii) :
  forallb plain_address_char (list_ascii_of_string a) = true ->
  plain_address_char ch = false -> byte_in ch a = false.
Proof.
  intros Ha Hc; unfold byte_in; induction a as [|c r IH]; [reflexivity|].
  simpl in Ha |- *; apply andb_true_iff in Ha as [Hc0 Hr].
  rewrite IH by exact Hr; rewrite orb_false_r.
  destruct (Ascii.eqb ch c) eqn:E; [|reflexivity].
  apply Ascii.eqb_eq in E; subst; congruence.
Qed.

Lemma remove_unsafe_plain_app (a t : string) :
  forallb plain_address_char (list_ascii_of_string a) = true ->
  remove_unsafe (a ++ t) = a ++ remove_unsafe t.
Proof.
  induction a as [|c r IH]; intros Ha; [reflexivity|].
  simpl in Ha; apply andb_true_iff in Ha as [Hc Hr]; simpl.
  rewrite IH by exact Hr.
  destruct (byte_in c _) eqn:E; [|reflexivity].
  exfalso; revert Hc E; clear.
  destruct c as [[] [] [] [] [] [] [] []]; vm_compute; congruence.
Qed.

Lemma span_not_plain_app (stop a t : string) :
  forallb plain_address_char (list_ascii_of_string a) = true ->
  forallb (fun c => negb (plain_address_char c)) (list_ascii_of_string stop) = true ->
  span_not stop (a ++ t) = let '(x, y) := span_not stop t in (a ++ x, y).
Proof.
  intros Ha Hs; induction a as [|c r IH]; simpl.
  - destruct (span_not stop t); reflexivity.
  - simpl in Ha; apply andb_true_iff in Ha as [Hc Hr].
    rewrite IH by exact Hr.
    assert (byte_in c stop = false) as ->.
    { unfold byte_in; apply not_true_iff_false; intros E.
      apply existsb_exists in E as [d [Hd Ed]]; apply Ascii.eqb_eq in Ed; subst d.
      rewrite forallb_forall in Hs; specialize (Hs c Hd); rewrite Hc in Hs; discriminate. }
    destruct (span_not stop t); reflexivity.
Qed.

Lemma rsplit_once_none (c : ascii) (a : string) :
  byte_in c a = false -> rsplit_once c a = None.
Proof.
  unfold byte_in; induction a as [|d r IH]; intros H; [reflexivity|].
  simpl in H |- *; apply orb_false_iff in H as [Hd Hr].
  rewrite IH by exact Hr; rewrite Hd; reflexivity.
Qed.

Lemma parse_fields_exc (l : list string) (e : exn) :
  parse_fields l = Exc e -> e = ValueError.
Proof.
  induction l as [|x xs IH]; simpl; [discriminate|].
  destruct (split_once "=" x) as [[n v]|]; [|congruence].
  destruct (parse_fields xs); [|intros H; injection H; intros <-; now apply IH].
  destruct v; discriminate.
Qed.

Lemma parse_qsl_strict_exc (qs : string) (e : exn) :
  parse_qsl_strict qs = Exc e -> e = ValueError.
Proof. destruct qs; [discriminate|apply parse_fields_exc]. Qed.

Lemma urlsplit_ocapn (a t : string) :
  forallb plain_address_char (list_ascii_of_string a) = true ->
  t = EmptyString \/ (exists q, t = String "?" q) ->
  exists sr, urlsplit ("ocapn://" ++ a ++ t) = Ret sr /\
             scheme sr = "ocapn" /\ netloc sr = a.
Proof.
  intros Ha Ht; unfold urlsplit.
  change (lstrip_c0 ("ocapn://" ++ a ++ t)) with ("ocapn://" ++ a ++ t).
  change (remove_unsafe ("ocapn://" ++ a ++ t)) with ("ocapn://" ++ remove_unsafe (a ++ t)).
  rewrite remove_unsafe_plain_app by exact Ha.
  change (split_once ":" ("ocapn://" ++ a ++ remove_unsafe t))
    with (Some ("ocapn", "//" ++ a ++ remove_unsafe t)).
  cbv beta iota zeta.
  change (lower "ocapn") with "ocapn".
  simpl.
  rewrite span_not_plain_app by (exact Ha || reflexivity).
  destruct Ht as [->|[q ->]]; simpl; rewrite str_app_nil_r;
    rewrite !(plain_no_byte a) by (exact Ha || reflexivity); simpl.
  - eexists; split; [reflexivity|split; reflexivity].
  - destruct (split_once "#" _) as [[u f]|]; destruct (split_once "?" _) as [[u' q']|];
      (eexists; split; [reflexivity|split; reflexivity]).
Qed.

Lemma urlencode_nonempty (h : list (string * string)) :
  h <> [] -> exists c r, urlencode h = String c r.
Proof.
  intros Hh; destruct h as [|[k v] ps]; [congruence|].
  unfold urlencode; simpl map.
  assert (forall x t, exists c r, x ++ String "=" t = String c r) as Hx
    by (intros [|c r] t; simpl; eauto).
  destruct ps as [|p ps]; simpl join; [apply Hx|].
  rewrite str_app_assoc; apply Hx.
Qed.

Lemma to_uri_shape (n : ocapn_node) :
  address n <> EmptyString ->
  to_uri n = "ocapn://" ++ address n ++
               match hints n with [] => EmptyString | h => "?" ++ urlencode h end.
Proof.
  intros Ha; unfold to_uri, urlunparse, urlunsplit.
  destruct (address n) as [|c r]; [congruence|].
  destruct (hints n) as [|p ps].
  - simpl; rewrite !str_app_nil_r; reflexivity.
  - destruct (urlencode_nonempty (p :: ps)) as [c' [r' ->]]; [discriminate|].
    simpl; rewrite ?str_app_nil_r, ?str_app_assoc; reflexivity.
Qed.
End UriFacts.

(** * Facts about [CapTPSession] *)

Module SessionFacts.
Import Syrup SyrupFacts Session.

(** Runs a session method on a state whose shape is known. *)
Ltac run_session :=
  unfold setup_session, bind, modify, gets, get_captp_version, send_message,
    receive_message, connection_receive, assert_, ret, raise; simpl.

Lemma existsb_Zeqb_In (c : Z) (l : list Z) : existsb (Z.eqb c) l = true <-> In c l.
Proof.
  rewrite existsb_exists; split.
  - intros [x [Hx E]]; apply Z.eqb_eq in E; now subst.
  - intros H; exists c; split; [exact H|apply Z.eqb_refl].
Qed.

Lemma record_handoffs_ok (args : list arg) (s : session) :
  NoDup (handoff_counts args) ->
  (forall c, In c (handoff_counts args) -> ~ In c (remote_seen_handoff_counts s)) ->
  exists s', record_handoffs args s = Ok tt s' /\ sent s' = sent s /\ inbox s' = inbox s /\
    forall c, In c (remote_seen_handoff_counts s') <->
              In c (remote_seen_handoff_counts s) \/ In c (handoff_counts args).
Proof.
  revert s; induction args as [|a rest IH]; intros s Hnd Hfresh.
  - exists s; simpl; repeat split; tauto.
  - cbn [record_handoffs handoff_counts] in *.
    destruct (arg_handoff_count a) as [count|].
    + unfold bind, gets, modify, raise.
      assert (existsb (Z.eqb count) (remote_seen_handoff_counts s) = false) as ->.
      { apply not_true_iff_false; rewrite existsb_Zeqb_In; apply Hfresh; left; reflexivity. }
      inversion Hnd as [|? ? Hnin Hnd']; subst.
      destruct (IH (set_seen (count :: remote_seen_handoff_counts s) s)) as [s' [E [Hs [Hi Hc]]]].
      * exact Hnd'.
      * simpl; intros c Hc [->|Hc']; [contradiction|].
        apply (Hfresh c); [right|]; assumption.
      * exists s'; rewrite E; repeat split; try assumption.
        -- intros Hx; apply Hc in Hx; simpl in Hx |- *; tauto.
        -- intros Hx; apply Hc; simpl in Hx |- *; tauto.
    + apply IH; assumption.
Qed.

Lemma record_handoffs_replay (args : list arg) (s : session) (pre post : list Z) (c : Z) :
  handoff_counts args = (pre ++ c :: post)%list -> NoDup pre ->
  (forall c', In c' pre -> ~ In c' (remote_seen_handoff_counts s)) ->
  In c (remote_seen_handoff_counts s) \/ In c pre ->
  exists s', record_handoffs args s = Err PlainException s' /\ sent s' = sent s /\
    inbox s' = inbox s /\
    forall c', In c' (remote_seen_handoff_counts s') <->
               In c' (remote_seen_handoff_counts s) \/ In c' pre.
Proof.
  revert s pre; induction args as [|a rest IH]; intros s pre Hc Hnd Hfresh Hin.
  - destruct pre; discriminate.
  - cbn [record_handoffs handoff_counts] in *.
    destruct (arg_handoff_count a) as [count|].
    + unfold bind, gets, modify, raise.
      destruct pre as [|c0 pre'].
      * injection Hc; intros _ ->.
        destruct Hin as [Hin|[]].
        apply existsb_Zeqb_In in Hin; rewrite Hin.
        exists s; repeat split; try tauto.
        intros [H|[]]; exact H.
      * injection Hc; intros Hc' ->.
        assert (existsb (Z.eqb c0) (remote_seen_handoff_counts s) = false) as ->.
        { apply not_true_iff_false; rewrite existsb_Zeqb_In; apply Hfresh; left; reflexivity. }
        inversion Hnd as [|? ? Hnin Hnd']; subst.
        destruct (IH (set_seen (c0 :: remote_seen_handoff_counts s) s) pre')
          as [s' [E [Hs [Hi Hx]]]]; try assumption.
        -- simpl; intros c' Hc1 [->|Hc2]; [contradiction|].
           apply (Hfresh c'); [right|]; assumption.
        -- simpl; simpl in Hin; tauto.
        -- exists s'; rewrite E; repeat split; try assumption.
           ++ intros Hy; apply Hx in Hy; simpl in Hy; simpl; tauto.
           ++ intros Hy; apply Hx; simpl; simpl in Hy; tauto.
    + apply (IH s pre); assumption.
Qed.

End SessionFacts.

(** * Facts about the further methods and about decoding edge cases *)

Module SyrupEdge.
Import Syrup SyrupFacts SyrupTail.

Lemma skip_ws_app (w s : string) :
  forallb is_ws (list_ascii_of_string w) = true -> skip_ws (w ++ s) = skip_ws s.
Proof.
  induction w as [|c r IH]; intros H; [reflexivity|].
  simpl in H; apply andb_prop in H as [Hc Hr]; simpl; rewrite Hc; exact (IH Hr).
Qed.

Lemma digit_props (c : ascii) :
  is_digit c = true ->
  is_ws c = false /\ byte_in c (String ":" (String dquote (String squote "+-"))) = false.
Proof. destruct c as [[] [] [] [] [] [] [] []]; vm_compute; first [discriminate | split; reflexivity]. Qed.

Lemma read_digits_all (ds acc : string) :
  forallb is_digit (list_ascii_of_string ds) = true -> read_digits ds acc = DigitsHang.
Proof.
  revert acc; induction ds as [|c r IH]; intros acc H; [reflexivity|].
  simpl in H; apply andb_prop in H as [Hc Hr]; simpl.
  rewrite (proj2 (digit_props c Hc)), Hc; exact (IH _ Hr).
Qed.

Lemma read_digits_zero (s acc : string) :
  read_digits s (String "0" acc) =
  match read_digits s acc with
  | DigitsOk l j r => DigitsOk (String "0" l) j r
  | o => o
  end.
Proof.
  revert acc; induction s as [|c r IH]; intros acc; [reflexivity|]; simpl.
  destruct (byte_in c _); [reflexivity|].
  destruct (is_digit c); [exact (IH _)|reflexivity].
Qed.

Lemma read_atom_zero (l r : string) (j : ascii) :
  read_atom (DigitsOk (String "0" l) j r) = read_atom (DigitsOk l j r).
Proof. reflexivity. Qed.

Lemma decode_fuel (s : string) (cs : bool) :
  syrup_decode s cs = read_fuel (S (2 * String.length s)) cs s.
Proof. unfold syrup_decode, syrup_read; f_equal; lia. Qed.

Lemma str_take_short (k : nat) (b : string) : (String.length b <= k)%nat -> str_take k b = b.
Proof.
  unfold str_take; revert k; induction b as [|c r IH]; intros [|k] H; simpl in *;
    try reflexivity; try lia.
  f_equal; apply IH; lia.
Qed.

Lemma str_drop_short (k : nat) (b : string) :
  (String.length b <= k)%nat -> str_drop k b = EmptyString.
Proof.
  revert k; induction b as [|c r IH]; intros [|k] H; simpl in *; try reflexivity; try lia.
  apply IH; lia.
Qed.

Lemma read_fuel_open_list (f : nat) (cs : bool) (o : ascii) (r : string) :
  byte_in o "[(l" = true -> read_fuel (S f) cs (String o r) = read_list f cs r [].
Proof.
  unfold byte_in; simpl; rewrite orb_false_r.
  intros H; repeat (apply orb_prop in H as [H|H]); apply Ascii.eqb_eq in H; subst; reflexivity.
Qed.

Lemma read_fuel_open_dict (f : nat) (cs : bool) (o : ascii) (r : string) :
  byte_in o "{d" = true -> read_fuel (S f) cs (String o r) = read_dict f cs r [].
Proof.
  unfold byte_in; simpl; rewrite orb_false_r.
  intros H; repeat (apply orb_prop in H as [H|H]); apply Ascii.eqb_eq in H; subst; reflexivity.
Qed.

(** What is left of the input once a closing byte (if any) is consumed. *)
Lemma read_list_close (cs : bool) (l : list value) :
  Forall (reads_back cs) l ->
  forall acc fuel tail,
  (tail = EmptyString \/ exists c r, tail = String c r /\ byte_in c "])e" = true) ->
  (2 * String.length (concat_str (map syrup_encode l)) + 2 <= fuel)%nat ->
  exists l', read_list fuel cs (concat_str (map syrup_encode l) ++ tail) acc
             = Done (VList (rev acc ++ l')) (after_close tail) /\ Forall2 same_value l' l.
Proof.
  induction 1 as [|x l Hx Hl IH]; intros acc fuel tail Ht Hf.
  - destruct fuel as [|f]; [lia|].
    exists []; rewrite app_nil_r; split; [|constructor].
    destruct Ht as [->|(c & r & -> & Hc)]; simpl; [reflexivity|now rewrite Hc].
  - destruct fuel as [|f]; [lia|]; simpl map; simpl concat_str.
    simpl map in Hf; simpl concat_str in Hf; rewrite str_length_app in Hf.
    pose proof (encode_length_pos x).
    rewrite str_app_assoc, read_list_step.
    destruct (Hx f (concat_str (map syrup_encode l) ++ tail)) as (x' & -> & Hsx);
      [lia|]; simpl obind.
    destruct (IH (x' :: acc) f tail Ht) as (l' & -> & Hl'); [lia|].
    exists (x' :: l'); split; [|constructor; assumption].
    simpl rev; rewrite <- app_assoc; reflexivity.
Qed.

Lemma read_dict_close (cs : bool) (d : list (value * value)) :
  Forall (fun kv => is_hashable (fst kv) = true /\ reads_back cs (fst kv)
                    /\ reads_back cs (snd kv)) d ->
  forall acc fuel tail,
  (tail = EmptyString \/ exists c r, tail = String c r /\ byte_in c "}e" = true) ->
  pairwise_distinct (map fst acc ++ map fst d) = true ->
  (2 * String.length (concat_str (map encode_entry d)) + 2 <= fuel)%nat ->
  exists d1, read_dict fuel cs (concat_str (map encode_entry d) ++ tail) acc
             = Done (VDict (acc ++ d1)) (after_close tail) /\ Forall2 same_entry d1 d.
Proof.
  induction 1 as [|[k x] d [Hh [Hk Hx]] Hd IH]; intros acc fuel tail Ht Hp Hf.
  - destruct fuel as [|f]; [lia|].
    exists []; rewrite app_nil_r; split; [|constructor].
    destruct Ht as [->|(c & r & -> & Hc)]; simpl; [reflexivity|now rewrite Hc].
  - destruct fuel as [|f]; [lia|]; simpl map; simpl concat_str; simpl fst in *;
      simpl snd in *.
    simpl map in Hf; simpl concat_str in Hf; unfold encode_entry at 1 in Hf;
      simpl fst in Hf; simpl snd in Hf; rewrite !str_length_app in Hf.
    pose proof (encode_length_pos k).
    unfold encode_entry at 1; simpl fst; simpl snd.
    rewrite !str_app_assoc, read_dict_step.
    destruct (Hk f (syrup_encode x ++ concat_str (map encode_entry d) ++ tail))
      as (k' & -> & Hsk); [lia|]; simpl obind.
    apply same_value_hashable in Hsk as ->; [|exact Hh].
    destruct (Hx f (concat_str (map encode_entry d) ++ tail))
      as (x' & -> & Hsx); [lia|]; simpl obind.
    simpl map in Hp.
    rewrite Hh, dict_setitem_fresh by exact (pairwise_distinct_mid _ _ k Hp).
    destruct (IH (acc ++ [(k, x')])%list f tail Ht) as (d1 & -> & Hd1).
    + rewrite map_app, <- app_assoc; exact Hp.
    + lia.
    + exists ((k, x') :: d1); rewrite <- app_assoc; split; [reflexivity|].
      constructor; [split; [reflexivity | exact Hsx] | exact Hd1].
Qed.

Lemma wf_dict_items (cs : bool) (d : list (value * value)) :
  wf (VDict d) = true ->
  Forall (fun kv => is_hashable (fst kv) = true /\ reads_back cs (fst kv)
                    /\ reads_back cs (snd kv)) d /\ pairwise_distinct (map fst d) = true.
Proof.
  simpl; intros Hw; apply andb_prop in Hw as [Hw Hd]; split; [|exact Hd].
  rewrite Forall_forall; rewrite forallb_forall in Hw; intros kv Hkv.
  specialize (Hw kv Hkv); apply andb_prop in Hw as [Hw Hx]; apply andb_prop in Hw as [Hh Hk].
  repeat split; try exact Hh; apply read_encode; assumption.
Qed.

Lemma read_args_eof (cs : bool) (label : value) (l : list value) :
  Forall (reads_back cs) l ->
  forall acc fuel,
  (2 * String.length (concat_str (map syrup_encode l)) + 2 <= fuel)%nat ->
  read_args fuel cs (concat_str (map syrup_encode l)) label acc = Hangs.
Proof.
  induction 1 as [|x l Hx Hl IH]; intros acc fuel Hf.
  - destruct fuel as [|[|f]]; [lia|lia|reflexivity].
  - destruct fuel as [|f]; [lia|]; simpl map; simpl concat_str.
    simpl map in Hf; simpl concat_str in Hf; rewrite str_length_app in Hf.
    pose proof (encode_length_pos x).
    rewrite read_args_step.
    destruct (Hx f (concat_str (map syrup_encode l))) as (x' & -> & Hsx); [lia|]; simpl obind.
    apply IH; lia.
Qed.

Lemma read_set_eof (cs : bool) (l : list value) :
  Forall (fun x => is_hashable x = true /\ reads_back cs x) l ->
  forall acc fuel,
  (2 * String.length (concat_str (map syrup_encode l)) + 2 <= fuel)%nat ->
  read_set fuel cs (concat_str (map syrup_encode l)) acc = Hangs.
Proof.
  induction 1 as [|x l [Hh Hx] Hl IH]; intros acc fuel Hf.
  - destruct fuel as [|[|f]]; [lia|lia|reflexivity].
  - destruct fuel as [|f]; [lia|]; simpl map; simpl concat_str.
    simpl map in Hf; simpl concat_str in Hf; rewrite str_length_app in Hf.
    pose proof (encode_length_pos x).
    rewrite read_set_step.
    destruct (Hx f (concat_str (map syrup_encode l))) as (x' & -> & Hsx); [lia|]; simpl obind.
    apply same_value_hashable in Hsx as ->; [|exact Hh]; rewrite Hh.
    apply IH; lia.
Qed.

Lemma ws_not_close (c : ascii) : is_ws c = true -> byte_in c "])e" = false.
Proof. destruct c as [[] [] [] [] [] [] [] []]; vm_compute; congruence. Qed.

End SyrupEdge.

Module SessionOpsFacts.
Import Syrup Session SessionFacts SessionOps.

Lemma record_handoffs_none (args : list arg) (s : session) :
  handoff_counts args = [] -> record_handoffs args s = Ok tt s.
Proof.
  induction args as [|a rest IH]; intros H; [reflexivity|].
  cbn [handoff_counts record_handoffs] in *.
  destruct (arg_handoff_count a); [discriminate|exact (IH H)].
Qed.

Lemma receive_plain (s : session) (m : op) (rest : list op) :
  inbox s = m :: rest -> no_handoffs m -> receive_message s = Ok m (set_inbox rest s).
Proof.
  intros Hi Hm; unfold receive_message, bind, connection_receive; rewrite Hi.
  destruct m; try reflexivity.
  simpl in Hm; rewrite record_handoffs_none by exact Hm; reflexivity.
Qed.

Lemma expect_loop_skip (n : nat) (recipients : list target) (pre : list op) (m : op)
    (post : list op) (s : session) :
  inbox s = (pre ++ m :: post)%list -> (length pre < n)%nat ->
  Forall (fun x => no_handoffs x /\ delivers_to recipients x = false) pre ->
  no_handoffs m -> delivers_to recipients m = true ->
  expect_message_to_loop n recipients s = Ok m (set_inbox post s).
Proof.
  revert n s; induction pre as [|x pre IH]; intros n s Hi Hn Hpre Hm Hd.
  - destruct n as [|n]; [simpl in Hn; lia|].
    cbn [expect_message_to_loop]; unfold bind at 1.
    rewrite (receive_plain s m post Hi Hm).
    destruct m; simpl in Hd; try discriminate; rewrite Hd; reflexivity.
  - destruct n as [|n]; [simpl in Hn; lia|].
    inversion Hpre as [|? ? [Hx Hdx] Hpre']; subst.
    cbn [expect_message_to_loop]; unfold bind at 1.
    rewrite (receive_plain s x (pre ++ m :: post) Hi Hx).
    assert (E : expect_message_to_loop n recipients (set_inbox (pre ++ m :: post) s)
                = Ok m (set_inbox post s)).
    { rewrite (IH n (set_inbox (pre ++ m :: post) s)); try assumption; try reflexivity.
      simpl in Hn; lia. }
    destruct x; simpl in Hdx; try rewrite Hdx; exact E.
Qed.

Lemma expect_loop_none (n : nat) (recipients : list target) (l : list op) (s : session) :
  inbox s = l -> (length l < n)%nat ->
  Forall (fun x => no_handoffs x /\ delivers_to recipients x = false) l ->
  expect_message_to_loop n recipients s = Blocked (set_inbox [] s).
Proof.
  revert n s; induction l as [|x l IH]; intros n s Hi Hn Hl.
  - destruct n as [|n]; [simpl in Hn; lia|].
    destruct s; simpl in Hi; subst; reflexivity.
  - destruct n as [|n]; [simpl in Hn; lia|].
    inversion Hl as [|? ? [Hx Hdx] Hl']; subst.
    cbn [expect_message_to_loop]; unfold bind at 1.
    rewrite (receive_plain s x l Hi Hx).
    assert (E : expect_message_to_loop n recipients (set_inbox l s)
                = Blocked (set_inbox [] s)).
    { rewrite (IH n (set_inbox l s)); try assumption; try reflexivity.
      simpl in Hn; lia. }
    destruct x; simpl in Hdx; try rewrite Hdx; exact E.
Qed.


Lemma expect_to_first (recipients : list target) (pre : list op) (m : op)
    (post : list op) (s : session) :
  inbox s = (pre ++ m :: post)%list ->
  Forall (fun x => no_handoffs x /\ delivers_to recipients x = false) pre ->
  no_handoffs m -> delivers_to recipients m = true ->
  expect_message_to recipients s = Ok m (set_inbox post s).
Proof.
  intros Hi Hpre Hm Hd; unfold expect_message_to.
  apply expect_loop_skip with pre; auto.
  rewrite Hi, length_app; simpl; lia.
Qed.

Lemma expect_to_none (recipients : list target) (s : session) :
  Forall (fun x => no_handoffs x /\ delivers_to recipients x = false) (inbox s) ->
  expect_message_to recipients s = Blocked (set_inbox [] s).
Proof.
  intros H; unfold expect_message_to; apply expect_loop_none with (inbox s); auto.
Qed.

End SessionOpsFacts.

Module UriOpsFacts.
Import Syrup SyrupFacts Uri UriFacts UriOps.

Lemma same_entries_hashable (d1 d : list (value * value)) :
  Forall2 same_entry d1 d -> Forall (fun q => is_hashable (snd q) = true) d -> d1 = d.
Proof.
  induction 1 as [|[k1 x1] [k x] d1 d [Hk Hx] _ IH]; intros Hh; [reflexivity|].
  inversion Hh as [|? ? Hq Hr]; subst; simpl in *.
  apply same_value_hashable in Hx; [|exact Hq]; subst; f_equal; auto.
Qed.

Lemma same_hints_value (v : value) (h : list (string * string)) :
  same_value v (hints_value h) ->
  exists d, v = VDict d /\ Permutation d (map (fun '(k, x) => (VStr k, VStr x)) h).
Proof.
  intros S; inversion S as [? Hh| | |d1 d d2 H12 Hp|]; subst; [discriminate|].
  exists d1; split; [reflexivity|].
  rewrite (same_entries_hashable d1 d H12); [exact Hp|].
  rewrite Forall_forall; intros q Hq.
  apply (Permutation_in _ Hp), in_map_iff in Hq as ([k x] & <- & _); reflexivity.
Qed.

Lemma same_node_record (v : value) (n : ocapn_node) :
  same_value v (node_to_syrup_record n) ->
  exists d, v = VRecord (VSym "ocapn-node") [VSym (transport n); VStr (address n); VDict d] /\
            Permutation d (map (fun '(k, x) => (VStr k, VStr x)) (hints n)).
Proof.
  intros S; inversion S as [? Hh| |a1 a2 l1 l2 Sa Sl| |]; subst; [discriminate|].
  apply same_value_hashable in Sa; [|reflexivity]; subst.
  inversion Sl as [|x1 ? l1' ? S1 Sl1]; subst.
  inversion Sl1 as [|x2 ? l2' ? S2 Sl2]; subst.
  inversion Sl2 as [|x3 ? l3' ? S3 Sl3]; subst.
  inversion Sl3; subst.
  apply same_value_hashable in S1; [|reflexivity].
  apply same_value_hashable in S2; [|reflexivity]; subst.
  destruct (same_hints_value x3 (hints n) S3) as (d & -> & Hp).
  exists d; split; [reflexivity|exact Hp].
Qed.

Lemma map_str_pair_inj (h1 h2 : list (string * string)) :
  map (fun '(k, x) => (VStr k, VStr x)) h1 = map (fun '(k, x) => (VStr k, VStr x)) h2 -> h1 = h2.
Proof.
  revert h2; induction h1 as [|[k x] h1 IH]; intros [|[k' x'] h2]; simpl; try discriminate; [reflexivity|].
  intros E; injection E as -> -> E; f_equal; auto.
Qed.

Lemma perm_str_pairs (h1 h2 : list (string * string)) :
  Permutation (map (fun '(k, x) => (VStr k, VStr x)) h1) (map (fun '(k, x) => (VStr k, VStr x)) h2) ->
  Permutation h1 h2.
Proof.
  intros Hp; destruct (Permutation_map_inv _ _ Hp) as (h & E & Hh).
  apply map_str_pair_inj in E; subst; apply Permutation_sym; exact Hh.
Qed.

Lemma hints_keys_nodup (h : list (string * string)) :
  wf (hints_value h) = true ->
  NoDup (map fst (map (fun '(k, x) => (VStr k, VStr x)) h)).
Proof.
  unfold hints_value; simpl wf; intros W; apply andb_prop in W as [_ W].
  induction h as [|[k x] h IH]; simpl in *; [constructor|].
  apply andb_prop in W as [F W]; constructor; [|exact (IH W)].
  intros Hin; rewrite forallb_forall in F; specialize (F _ Hin).
  simpl in F; rewrite String.eqb_refl in F; discriminate.
Qed.

Lemma avoids_app (stop x y : string) :
  avoids stop (x ++ y) = avoids stop x && avoids stop y.
Proof.
  unfold avoids; induction x as [|c r IH]; [reflexivity|]; simpl; rewrite IH, andb_assoc; reflexivity.
Qed.

Lemma span_not_avoids (stop x y : string) :
  avoids stop x = true ->
  span_not stop (x ++ y) = let '(a, b) := span_not stop y in (x ++ a, b).
Proof.
  induction x as [|c r IH]; intros H; simpl.
  - destruct (span_not stop y); reflexivity.
  - unfold avoids in H; simpl in H; apply andb_prop in H as [Hc Hr].
    apply negb_true_iff in Hc; rewrite Hc, IH by exact Hr.
    destruct (span_not stop y); reflexivity.
Qed.

Lemma span_not_avoids_all (stop x : string) :
  avoids stop x = true -> span_not stop x = (x, EmptyString).
Proof.
  intros H; rewrite <- (str_app_nil_r x), span_not_avoids by exact H; reflexivity.
Qed.

Lemma byte_in_avoids (c : ascii) (stop x : string) :
  avoids stop x = true -> byte_in c stop = true -> byte_in c x = false.
Proof.
  unfold avoids, byte_in; intros H Hc; induction x as [|d r IH]; [reflexivity|].
  simpl in H |- *; apply andb_prop in H as [Hd Hr].
  rewrite IH by exact Hr; rewrite orb_false_r.
  destruct (Ascii.eqb c d) eqn:E; [|reflexivity].
  apply Ascii.eqb_eq in E; subst; unfold byte_in in Hc; rewrite Hc in Hd; discriminate.
Qed.

Lemma split_once_avoids (c : ascii) (x y : string) :
  avoids (String c EmptyString) x = true -> split_once c (x ++ String c y) = Some (x, y).
Proof.
  intros H; unfold split_once; rewrite span_not_avoids by exact H.
  cbn [span_not]; unfold byte_in; cbn [list_ascii_of_string existsb]; rewrite Ascii.eqb_refl; simpl; rewrite str_app_nil_r; reflexivity.
Qed.

Lemma split_once_none (c : ascii) (x : string) :
  avoids (String c EmptyString) x = true -> split_once c x = None.
Proof. intros H; unfold split_once; rewrite span_not_avoids_all by exact H; reflexivity. Qed.

Lemma remove_unsafe_avoids (x : string) :
  avoids (String "009" (String "013" (String "010" EmptyString))) x = true -> remove_unsafe x = x.
Proof.
  unfold avoids; induction x as [|c r IH]; intros H; [reflexivity|].
  simpl in H; apply andb_prop in H as [Hc Hr]; apply negb_true_iff in Hc.
  simpl; rewrite Hc, IH by exact Hr; reflexivity.
Qed.

Lemma rsplit_once_last (c : ascii) (x y : string) :
  byte_in c y = false -> rsplit_once c (x ++ String c y) = Some (x, y).
Proof.
  intros Hy; induction x as [|d r IH]; simpl.
  - cbn [rsplit_once]; rewrite rsplit_once_none by exact Hy; rewrite Ascii.eqb_refl; reflexivity.
  - rewrite IH; reflexivity.
Qed.

Lemma split_on_avoids (c : ascii) (x : string) :
  avoids (String c EmptyString) x = true -> split_on c x = [x].
Proof.
  unfold avoids; induction x as [|d r IH]; intros H; [reflexivity|].
  simpl in H; apply andb_prop in H as [Hd Hr]; unfold byte_in in Hd; cbn [list_ascii_of_string existsb] in Hd;
    rewrite orb_false_r in Hd.
  apply negb_true_iff in Hd; rewrite Ascii.eqb_sym in Hd; simpl; rewrite Hd, IH by exact Hr; reflexivity.
Qed.

Lemma split_on_app (c : ascii) (x y : string) :
  avoids (String c EmptyString) x = true -> split_on c (x ++ String c y) = x :: split_on c y.
Proof.
  unfold avoids; induction x as [|d r IH]; intros H; simpl.
  - rewrite Ascii.eqb_refl; reflexivity.
  - simpl in H; apply andb_prop in H as [Hd Hr]; unfold byte_in in Hd; cbn [list_ascii_of_string existsb] in Hd;
      rewrite orb_false_r in Hd.
    apply negb_true_iff in Hd; rewrite Ascii.eqb_sym in Hd; rewrite Hd, IH by exact Hr; reflexivity.
Qed.

Lemma split_on_join (c : ascii) (l : list string) :
  l <> [] -> Forall (fun x => avoids (String c EmptyString) x = true) l ->
  split_on c (join (String c EmptyString) l) = l.
Proof.
  induction l as [|x [|y l] IH]; intros Hn Hl; [congruence| |].
  - inversion Hl; subst; simpl; apply split_on_avoids; assumption.
  - inversion Hl as [|? ? Hx Hl']; subst.
    change (join (String c EmptyString) (x :: y :: l))
      with (x ++ String c (join (String c EmptyString) (y :: l))).
    rewrite split_on_app by exact Hx; f_equal; apply IH; [discriminate|exact Hl'].
Qed.

Lemma plus_to_space_app (x y : string) :
  plus_to_space (x ++ y) = plus_to_space x ++ plus_to_space y.
Proof. induction x as [|c r IH]; simpl; [reflexivity|rewrite IH; reflexivity]. Qed.

Lemma unquote_quote_byte (c : ascii) (r : string) :
  unquote (plus_to_space (quote_byte c) ++ r) = String c (unquote r).
Proof. destruct c as [[] [] [] [] [] [] [] []]; reflexivity. Qed.

(** [unquote(quote_plus(s).replace('+', ' '))] is [s]. *)
Lemma unquote_quote_plus (s : string) :
  unquote (plus_to_space (quote_plus s)) = s.
Proof.
  induction s as [|c r IH]; [reflexivity|].
  simpl; rewrite plus_to_space_app, unquote_quote_byte, IH; reflexivity.
Qed.

(** The bytes [quote_plus] never outputs: every byte but the safe ones,
    [+] and [%]. *)
Lemma quote_byte_avoids (c : ascii) :
  avoids (String "009" (String "013" (String "010" "&=#?/[]"))) (quote_byte c) = true.
Proof. destruct c as [[] [] [] [] [] [] [] []]; reflexivity. Qed.

Lemma quote_plus_avoids (s : string) :
  avoids (String "009" (String "013" (String "010" "&=#?/[]"))) (quote_plus s) = true.
Proof.
  induction s as [|c r IH]; [reflexivity|]; simpl; rewrite avoids_app, quote_byte_avoids, IH; reflexivity.
Qed.

Lemma avoids_sub (stop stop' s : string) :
  avoids stop' s = true -> forallb (fun c => byte_in c stop') (list_ascii_of_string stop) = true ->
  avoids stop s = true.
Proof.
  unfold avoids; intros H Hs; rewrite forallb_forall in H, Hs |- *; intros c Hc.
  specialize (H c Hc); apply negb_true_iff in H; apply negb_true_iff.
  apply not_true_iff_false; intros E; unfold byte_in in E.
  apply existsb_exists in E as [d [Hd Ed]]; apply Ascii.eqb_eq in Ed; subst d.
  specialize (Hs c Hd); congruence.
Qed.

Lemma quote_plus_empty (s : string) : quote_plus s = EmptyString -> s = EmptyString.
Proof.
  destruct s as [|c r]; [reflexivity|]; simpl; unfold quote_byte.
  destruct (always_safe c); [discriminate|]; destruct (Ascii.eqb c " "); discriminate.
Qed.

Lemma parse_fields_encoded (h : list (string * string)) :
  parse_fields (map encode_field h) =
  Ret (filter (fun kv => negb (String.eqb (snd kv) EmptyString)) h).
Proof.
  induction h as [|[k v] h IH]; [reflexivity|].
  cbn [map parse_fields encode_field].
  change ("=" ++ quote_plus v) with (String "=" (quote_plus v)).
  rewrite (split_once_avoids "=" (quote_plus k) (quote_plus v)).
  2: { apply (avoids_sub _ _ _ (quote_plus_avoids k)); reflexivity. }
  rewrite IH, !unquote_quote_plus; simpl.
  destruct (quote_plus v) eqn:E.
  - apply quote_plus_empty in E; subst; reflexivity.
  - destruct v as [|c r]; [discriminate|]; reflexivity.
Qed.


Lemma avoids_of_forallb (P : ascii -> bool) (stop x : string) :
  forallb P (list_ascii_of_string x) = true ->
  (forall c, P c = true -> byte_in c stop = false) -> avoids stop x = true.
Proof.
  unfold avoids; intros H Hp; rewrite forallb_forall in H |- *; intros c Hc.
  apply negb_true_iff, Hp, H, Hc.
Qed.

Lemma netloc_char_avoids (c : ascii) :
  netloc_char c = true ->
  byte_in c (String "009" (String "013" (String "010" "/?#[]"))) = false.
Proof. destruct c as [[] [] [] [] [] [] [] []]; vm_compute; congruence. Qed.

Lemma avoids_cons_inv (c : ascii) (stop x : string) :
  avoids (String c stop) x = true -> avoids stop x = true.
Proof.
  unfold avoids; intros H; rewrite forallb_forall in H |- *; intros d Hd.
  specialize (H d Hd); unfold byte_in in H |- *; simpl in H.
  apply negb_true_iff, orb_false_iff in H as [_ H]; rewrite H; reflexivity.
Qed.

Lemma urlsplit_exc (u : string) (e : exn) : urlsplit u = Exc e -> e = ValueError.
Proof.
  unfold urlsplit; intros H.
  repeat match type of H with
  | context [let '(_, _) := ?X in _] => destruct X
  | context [if ?b then _ else _] => destruct b
  end; congruence.
Qed.

End UriOpsFacts.

(** * The codec's claims *)

Module SyrupClaims.
Import Syrup SyrupFacts.

(** C1 (amended). Round trip: for every well-formed value [v] (UTF-8 strings
    and symbol names, 64-bit float patterns, hashable and pairwise unequal dict
    keys and set elements), [syrup_decode(syrup_encode(v))] reads the whole
    encoding and returns a value that is [v] up to the order of dict entries
    and set elements, every float bit for bit.  Python's [==] can still fail on
    it, as it does on any value holding a NaN. *)
Theorem syrup_roundtrip (cs : bool) (v : value) :
  wf v = true ->
  exists v', syrup_decode (syrup_encode v) cs = Done v' EmptyString /\ same_value v' v.
Proof.
  intros Hw; unfold syrup_decode, syrup_read.
  destruct (read_encode cs v Hw (2 * String.length (syrup_encode v) + 1) EmptyString
              (le_n _)) as (v' & Hr & Hs).
  rewrite str_app_nil_r in Hr; exists v'; split; assumption.
Qed.

Lemma syrup_roundtrip_witness :
  wf (VDict [(VSym "a", VList [VFloat 4607182418800017408; VStr "x"]);
             (VInt (-3), VSet [VBool true; VBytes "q"])]) = true /\
  exists v', syrup_decode (syrup_encode
    (VDict [(VSym "a", VList [VFloat 4607182418800017408; VStr "x"]);
            (VInt (-3), VSet [VBool true; VBytes "q"])])) false = Done v' EmptyString /\
  same_value v' (VDict [(VSym "a", VList [VFloat 4607182418800017408; VStr "x"]);
                        (VInt (-3), VSet [VBool true; VBytes "q"])]).
Proof. split; [reflexivity | apply syrup_roundtrip; reflexivity]. Defined.

(** C1, counterexample: the float NaN (bits [0x7FF8000000000000]) decodes to
    the very same bits, yet Python's [==] on it is [False]. *)
Lemma syrup_roundtrip_nan :
  wf (VFloat 9221120237041090560) = true /\
  syrup_decode (syrup_encode (VFloat 9221120237041090560)) false
    = Done (VFloat 9221120237041090560) EmptyString /\
  py_eq (VFloat 9221120237041090560) (VFloat 9221120237041090560) = false.
Proof. vm_compute; repeat split. Qed.

(** C4 (amended). Canonical order: a dict's entries are emitted sorted by the
    byte-wise order of their encoded keys, each key followed by its value, and
    a set's elements sorted by their encodings.  Hence two dicts holding the
    same entries in any order (well-formed, keys structurally distinct), and
    two sets holding the same elements in any order, encode alike; Python-equal
    dicts or sets whose keys or elements are equal but not identical (as [1]
    and [True]) need not. *)
Theorem syrup_canonical_order :
  (forall d, exists d', Permutation d d' /\
     syrup_encode (VDict d) = "{" ++ concat_str (map encode_entry d') ++ "}" /\
     Sorted key_le (map (fun kv => syrup_encode (fst kv)) d')) /\
  (forall l, exists l', Permutation l l' /\
     syrup_encode (VSet l) = "#" ++ concat_str (map syrup_encode l') ++ "$" /\
     Sorted key_le (map syrup_encode l')) /\
  (forall d1 d2, wf (VDict d1) = true -> NoDup (map fst d1) -> Permutation d1 d2 ->
     syrup_encode (VDict d1) = syrup_encode (VDict d2)) /\
  (forall l1 l2, Permutation l1 l2 -> syrup_encode (VSet l1) = syrup_encode (VSet l2)).
Proof.
  split; [exact encode_dict_sorted|]; split; [exact encode_set_sorted|].
  split; [exact encode_dict_perm | exact encode_set_perm].
Qed.

Lemma syrup_canonical_order_witness :
  wf (VDict [(VInt 2, VStr "b"); (VSym "k", VBool false)]) = true /\
  NoDup (map fst [(VInt 2, VStr "b"); (VSym "k", VBool false)]) /\
  Permutation [(VInt 2, VStr "b"); (VSym "k", VBool false)]
              [(VSym "k", VBool false); (VInt 2, VStr "b")] /\
  syrup_encode (VDict [(VInt 2, VStr "b"); (VSym "k", VBool false)])
  = syrup_encode (VDict [(VSym "k", VBool false); (VInt 2, VStr "b")]).
Proof.
  assert (Hn : NoDup (map fst [(VInt 2, VStr "b"); (VSym "k", VBool false)])).
  { simpl; constructor; [intros [H|[]]; discriminate | repeat constructor; intros []]. }
  assert (Hp : Permutation [(VInt 2, VStr "b"); (VSym "k", VBool false)]
                           [(VSym "k", VBool false); (VInt 2, VStr "b")]) by constructor.
  split; [reflexivity|]; split; [exact Hn|]; split; [exact Hp|].
  apply (proj1 (proj2 (proj2 syrup_canonical_order))); [reflexivity | exact Hn | exact Hp].
Defined.

(** C4, counterexample: the sets [{1}] and [{True}] are equal in Python, and
    so are the dicts [{1: b'a'}] and [{True: b'a'}], but their encodings
    differ ([#1+$] against [#t$]). *)
Lemma syrup_equal_sets_differ :
  py_eq (VSet [VInt 1]) (VSet [VBool true]) = true /\
  syrup_encode (VSet [VInt 1]) = "#1+$" /\ syrup_encode (VSet [VBool true]) = "#t$" /\
  py_eq (VDict [(VInt 1, VBytes "a")]) (VDict [(VBool true, VBytes "a")]) = true /\
  syrup_encode (VDict [(VInt 1, VBytes "a")]) <> syrup_encode (VDict [(VBool true, VBytes "a")]).
Proof. vm_compute; repeat split; discriminate. Qed.

(** C8 (the code raises an encode-side error). When the first byte after the
    whitespace starts no production (no digit, none of [[ ( l { d < # F D f t]),
    [syrup_decode] raises [SyrupEncodeError], the encoder's exception, where a
    decode error is meant, with the stream at that byte. *)
Theorem syrup_unknown_tag_error (cs : bool) (s r : string) (c : ascii) :
  skip_ws s = Some (String c r) -> syrup_tag c = false ->
  syrup_decode s cs = Raised SyrupEncodeError (String c r).
Proof.
  intros Hs Ht; unfold syrup_decode, syrup_read; rewrite Nat.add_1_r; cbn [read_fuel].
  rewrite Hs.
  destruct (syrup_tag_props c Ht)
    as (H1 & H2 & H3 & H4 & H5 & H6 & H7 & H8 & H9).
  now rewrite H1, H2, H3, H4, H5, H6, H7, H8, H9.
Qed.

Lemma syrup_unknown_tag_error_witness :
  skip_ws (String " " (String "x" EmptyString)) = Some (String "x" EmptyString) /\
  syrup_tag "x" = false /\
  syrup_decode (String " " (String "x" EmptyString)) false
  = Raised SyrupEncodeError (String "x" EmptyString).
Proof.
  split; [reflexivity|]; split; [reflexivity|].
  apply syrup_unknown_tag_error; reflexivity.
Defined.

(** C9. With [convert_singles] off, a read at tag [F] raises
    [SyrupSingleFloatsNotSupported] and leaves the stream at the tag; with it
    on, the tag and the next 4 bytes are consumed and the value is their
    big-endian binary32 number as a binary64 float; no encoding starts with
    [F]. *)
Theorem syrup_single_floats (s b4 rest : string) :
  String.length b4 = 4%nat ->
  syrup_read false (String "F" s) = Raised SyrupSingleFloatsNotSupported (String "F" s) /\
  syrup_read true (String "F" (b4 ++ rest))
  = Done (VFloat (single_to_double (be_value b4 0))) rest /\
  (forall v, exists c r, syrup_encode v = String c r /\ c <> "F"%char).
Proof.
  intros Hb; unfold syrup_read; split; [|split].
  - rewrite Nat.add_1_r; apply read_fuel_F.
  - rewrite Nat.add_1_r, read_fuel_F; now apply read_packed_app.
  - intros v; destruct (encode_starts v) as (c & r & E & Hc).
    exists c, r; split; [exact E|]; intros ->; discriminate Hc.
Qed.

Lemma syrup_single_floats_witness :
  String.length (String "063" (String "128" (String "000" (String "000" EmptyString)))) = 4%nat /\
  syrup_read true (String "F" (String "063" (String "128" (String "000" (String "000" EmptyString)))))
  = Done (VFloat 4607182418800017408) EmptyString.
Proof.
  split; [reflexivity|].
  destruct (syrup_single_floats EmptyString
              (String "063" (String "128" (String "000" (String "000" EmptyString)))) EmptyString
              eq_refl) as [_ [H _]].
  rewrite str_app_nil_r in H; rewrite H; reflexivity.
Defined.

End SyrupClaims.

Module UriClaims.
Import Syrup Uri UriFacts.

(** C7 (the code drops the transport). [OCapNNode.to_uri] writes
    [ocapn://<address>] followed by [?<urlencoded hints>] when there are
    hints: the transport is not written.  For an address of letters, digits,
    [-] and [_], [from_uri] on that URI finds no [.] in the netloc and raises
    [ValueError] instead of returning the node. *)
Theorem ocapn_node_uri_roundtrip_fails (n : ocapn_node) :
  address n <> EmptyString ->
  forallb plain_address_char (list_ascii_of_string (address n)) = true ->
  to_uri n = "ocapn://" ++ address n ++
               match hints n with [] => EmptyString | h => "?" ++ urlencode h end /\
  from_uri (to_uri n) = Exc ValueError.
Proof.
  intros Hne Ha; split; [now apply to_uri_shape|].
  rewrite to_uri_shape by exact Hne.
  destruct (urlsplit_ocapn (address n)
              (match hints n with [] => EmptyString | h => "?" ++ urlencode h end) Ha)
    as [sr [E [Hs Hn]]].
  { destruct (hints n); [left|right; eexists]; reflexivity. }
  unfold from_uri; rewrite E, Hs; simpl negb; cbv iota beta.
  destruct (parse_qsl_strict (query sr)) as [hs|e] eqn:P.
  - rewrite Hn, rsplit_once_none; [reflexivity|].
    apply plain_no_byte; [exact Ha|reflexivity].
  - f_equal; eapply parse_qsl_strict_exc; exact P.
Qed.

(** C7, witness: the node [tcp-testing-only] with address [abc] and no hints. *)
Lemma ocapn_node_uri_roundtrip_fails_witness :
  to_uri (OCapNNode "tcp-testing-only" "abc" []) = "ocapn://abc" /\
  from_uri (to_uri (OCapNNode "tcp-testing-only" "abc" [])) = Exc ValueError.
Proof.
  pose proof (ocapn_node_uri_roundtrip_fails (OCapNNode "tcp-testing-only" "abc" []))
    as H.
  destruct H as [H1 H2]; [discriminate|reflexivity|].
  split; [exact H1|exact H2].
Defined.
End UriClaims.

Module SessionClaims.
Import Syrup SyrupFacts Session SessionFacts.

(** C2. [CapTPSession.id]: each side id is [sha256(sha256(...))] of the
    syrup encoding of that side's public-key record; the two ids are put in
    byte order [(lo, hi)] and the session id is
    [sha256(sha256(b"prot0" + lo + hi))].  A session holding [(a, b)] as (own,
    remote) key and one holding [(b, a)] compute the same id. *)
Theorem session_id_agrees (sha256 : string -> string) (s1 s2 : session) (a b : string) :
  public_key s1 = Some a -> remote_public_key s1 = Some b ->
  public_key s2 = Some b -> remote_public_key s2 = Some a ->
  our_side_id sha256 s1 = Ok (sha256 (sha256 (syrup_encode (pubkey_record a)))) s1 /\
  their_side_id sha256 s1 = Ok (sha256 (sha256 (syrup_encode (pubkey_record b)))) s1 /\
  let lo_hi := if String.leb (side_id sha256 a) (side_id sha256 b)
               then side_id sha256 a ++ side_id sha256 b
               else side_id sha256 b ++ side_id sha256 a in
  id sha256 s1 = Ok (sha256 (sha256 ("prot0" ++ lo_hi))) s1 /\
  id sha256 s2 = Ok (sha256 (sha256 ("prot0" ++ lo_hi))) s2.
Proof.
  intros H1 H2 H3 H4.
  unfold id, our_side_id, their_side_id, bind, ret; rewrite H1, H2, H3, H4.
  split; [reflexivity|split; [reflexivity|]].
  cbv zeta; cbn [sort_strings fold_right insert_str]; unfold bytes_leb.
  destruct (String.leb (side_id sha256 a) (side_id sha256 b)) eqn:Eab;
    destruct (String.leb (side_id sha256 b) (side_id sha256 a)) eqn:Eba;
    split; try reflexivity.
  - rewrite (String.leb_antisym _ _ Eab Eba); reflexivity.
  - destruct (String.leb_total (side_id sha256 a) (side_id sha256 b)); congruence.
Qed.

(** C2, witness: the hash that prefixes an [h], keys [A] and [B]. *)
Lemma session_id_agrees_witness :
  let s1 := mk_session true (VInt 0) (Some "1.0") (Some "x") (Some "A") (Some "B") 0 0 [] [] [] in
  let s2 := mk_session false (VInt 0) (Some "1.0") (Some "y") (Some "B") (Some "A") 0 0 [] [] [] in
  our_side_id (String "h") s1 = Ok (String "h" (String "h" (syrup_encode (pubkey_record "A")))) s1 /\
  their_side_id (String "h") s1 = Ok (String "h" (String "h" (syrup_encode (pubkey_record "B")))) s1 /\
  (let lo_hi := if String.leb (side_id (String "h") "A") (side_id (String "h") "B")
                then side_id (String "h") "A" ++ side_id (String "h") "B"
                else side_id (String "h") "B" ++ side_id (String "h") "A" in
   id (String "h") s1 = Ok (String "h" (String "h" ("prot0" ++ lo_hi))) s1 /\
   id (String "h") s2 = Ok (String "h" (String "h" ("prot0" ++ lo_hi))) s2).
Proof.
  intros s1 s2.
  exact (session_id_agrees (String "h") s1 s2 "A" "B" eq_refl eq_refl eq_refl eq_refl).
Defined.

(** C3 (code bug). What [setup_session] does, against the acceptance rule of
    the claim: it compares no version, verifies no location signature
    ([OpStartSession.valid] is never called, [ed25519_verify] does not
    occur) and sends no [op:abort].  With [self.captp_version] set, it
    returns normally after reading two [op:start-session] messages with any
    versions and signatures, keeping the key of the second; an outbound
    session has sent its own [op:start-session], an inbound one has built
    one and sent nothing. *)
Theorem setup_session_accepts_any_start
    (ed25519_public : string -> string) (ed25519_sign : string -> string -> string)
    (s : session) (captp_version_arg priv ver v1 k1 g1 v2 k2 g2 : string)
    (l1 l2 : value) (rest : list op) :
  captp_version s = Some ver ->
  inbox s = OpStartSession v1 k1 l1 g1 :: OpStartSession v2 k2 l2 g2 :: rest ->
  exists s',
    setup_session ed25519_public ed25519_sign captp_version_arg priv s = Ok tt s' /\
    public_key s' = Some (ed25519_public priv) /\
    remote_public_key s' = Some k2 /\ inbox s' = rest /\
    sent s' = (sent s ++
                 if is_outbound s
                 then [OpStartSession ver (ed25519_public priv) (location s)
                         (ed25519_sign priv
                            (syrup_encode (VRecord (VSym "my-location") [location s])))]
                 else [])%list.
Proof.
  intros Hv Hi.
  destruct s as [out loc cv pk sk rpk nip nap seen snt inb]; simpl in Hv, Hi |- *.
  subst cv inb.
  run_session.
  destruct out; (eexists; split; [reflexivity|]); simpl; repeat split.
  now rewrite app_nil_r.
Qed.

(** C3, witness: an outbound session reading two start messages. *)
Lemma setup_session_accepts_any_start_witness :
  exists s',
    setup_session (fun k => String "P" k) (fun k d => String "S" k) "1.0" "k"
      (mk_session true (VSym "loc") (Some "1.0") None None None 0 0 [] []
         [OpStartSession "1.0" "A" (VSym "peer") "sig";
          OpStartSession "1.0" "B" (VSym "peer") "sig"]) = Ok tt s' /\
    public_key s' = Some "Pk" /\ remote_public_key s' = Some "B" /\ inbox s' = [] /\
    sent s' = [OpStartSession "1.0" "Pk" (VSym "loc") "Sk"].
Proof.
  exact (setup_session_accepts_any_start (fun k => String "P" k) (fun k d => String "S" k)
           (mk_session true (VSym "loc") (Some "1.0") None None None 0 0 [] []
              [OpStartSession "1.0" "A" (VSym "peer") "sig";
               OpStartSession "1.0" "B" (VSym "peer") "sig"])
           "1.0" "k" "1.0" "1.0" "A" "sig" "1.0" "B" "sig" (VSym "peer") (VSym "peer") []
           eq_refl eq_refl).
Defined.

(** C3, counterexample: a peer announcing version [bogus] with a location
    signature that does not verify is accepted, and no [op:abort] is sent. *)
Lemma setup_session_accepts_bogus_peer :
  let s0 := mk_session true (VSym "loc") (Some "1.0") None None None 0 0 [] []
              [OpStartSession "bogus" "K" (VSym "peer") "bad";
               OpStartSession "bogus" "K" (VSym "peer") "bad"] in
  start_session_valid (fun pk sig _ => String.eqb pk sig)
    (OpStartSession "bogus" "K" (VSym "peer") "bad") = false /\
  exists s',
    setup_session (fun k => k) (fun k _ => k) "1.0" "k" s0 = Ok tt s' /\
    remote_public_key s' = Some "K" /\
    sent s' = [OpStartSession "1.0" "k" (VSym "loc") "k"] /\
    (forall reason, ~ In (OpAbort reason) (sent s')).
Proof.
  intros s0; split; [reflexivity|].
  unfold s0; run_session.
  eexists; split; [reflexivity|].
  split; [reflexivity|]; split; [reflexivity|].
  intros reason [H|[]]; discriminate.
Qed.

(** C10 ([self.captp_version] is never assigned). On a session built by
    [CapTPSession.__init__], [setup_session] raises [AttributeError] when it
    builds its own [op:start-session]: it has received nothing, sent nothing
    and recorded no remote key. *)
Theorem setup_session_unset_version
    (ed25519_public : string -> string) (ed25519_sign : string -> string -> string)
    (loc : value) (outbound : bool) (pending : list op) (captp_version_arg priv : string) :
  exists s',
    setup_session ed25519_public ed25519_sign captp_version_arg priv
      (new_session loc outbound pending) = Err AttributeError s' /\
    inbox s' = pending /\ sent s' = [] /\ remote_public_key s' = None.
Proof. run_session; eexists; split; [reflexivity|]; repeat split. Qed.

(** Once [self.captp_version] is set, a peer that sends [op:start-session]
    only once leaves [setup_session] waiting on its second [receive_message],
    with the first key recorded. *)
Theorem setup_session_one_start_blocks
    (ed25519_public : string -> string) (ed25519_sign : string -> string -> string)
    (s : session) (captp_version_arg priv ver v1 k1 g1 : string) (l1 : value) :
  captp_version s = Some ver ->
  inbox s = [OpStartSession v1 k1 l1 g1] ->
  exists s',
    setup_session ed25519_public ed25519_sign captp_version_arg priv s = Blocked s' /\
    remote_public_key s' = Some k1 /\ inbox s' = [].
Proof.
  intros Hv Hi.
  destruct s as [out loc cv pk sk rpk nip nap seen snt inb]; simpl in Hv, Hi |- *.
  subst cv inb.
  run_session.
  destruct out; (eexists; split; [reflexivity|]); split; reflexivity.
Qed.

(** Witness: an inbound session with one start message. *)
Lemma setup_session_one_start_blocks_witness :
  exists s',
    setup_session (fun k => k) (fun k _ => k) "1.0" "k"
      (mk_session false (VSym "loc") (Some "1.0") None None None 0 0 [] []
         [OpStartSession "1.0" "A" (VSym "peer") "sig"]) = Blocked s' /\
    remote_public_key s' = Some "A" /\ inbox s' = [].
Proof.
  exact (setup_session_one_start_blocks (fun k => k) (fun k _ => k)
           (mk_session false (VSym "loc") (Some "1.0") None None None 0 0 [] []
              [OpStartSession "1.0" "A" (VSym "peer") "sig"])
           "1.0" "k" "1.0" "1.0" "A" "sig" (VSym "peer") eq_refl eq_refl).
Defined.

(** C5 (amended). [receive_message] returns any message other than an
    [op:deliver] as it is.  For an [op:deliver], the handoff counts of the
    top-level [DescSigEnvelope]s wrapping a [DescHandoffReceive] are checked in
    order: when none was seen before (nor repeats in the message), all are
    added and the message is returned; at the first one already seen, a
    plain [Exception] is raised, nothing is sent (no [op:abort]), and the
    counts before it in the message stay added. *)
Theorem receive_message_handoff_guard (s : session) (m : op) (rest : list op) :
  inbox s = m :: rest ->
  match m with
  | OpDeliver _ args _ _ =>
      (NoDup (handoff_counts args) ->
       (forall c, In c (handoff_counts args) -> ~ In c (remote_seen_handoff_counts s)) ->
       exists s', receive_message s = Ok m s' /\ sent s' = sent s /\ inbox s' = rest /\
         forall c, In c (remote_seen_handoff_counts s') <->
                   In c (remote_seen_handoff_counts s) \/ In c (handoff_counts args)) /\
      (forall pre c post,
       handoff_counts args = (pre ++ c :: post)%list -> NoDup pre ->
       (forall c', In c' pre -> ~ In c' (remote_seen_handoff_counts s)) ->
       In c (remote_seen_handoff_counts s) \/ In c pre ->
       exists s', receive_message s = Err PlainException s' /\ sent s' = sent s /\
         inbox s' = rest /\
         forall c', In c' (remote_seen_handoff_counts s') <->
                    In c' (remote_seen_handoff_counts s) \/ In c' pre)
  | _ => receive_message s = Ok m (set_inbox rest s)
  end.
Proof.
  intros Hi; unfold receive_message, bind, connection_receive; rewrite Hi.
  destruct m as [v k l g|to args ap rm| | | | |]; try reflexivity.
  split.
  - intros Hnd Hf.
    destruct (record_handoffs_ok args (set_inbox rest s) Hnd Hf) as [s' [E [Hs [Hb Hc]]]].
    exists s'; rewrite E; split; [reflexivity|]; rewrite Hs, Hb.
    split; [reflexivity|split; [reflexivity|exact Hc]].
  - intros pre c post Hc Hnd Hf Hin.
    destruct (record_handoffs_replay args (set_inbox rest s) pre post c Hc Hnd Hf Hin)
      as [s' [E [Hs [Hb Hx]]]].
    exists s'; rewrite E; split; [reflexivity|]; rewrite Hs, Hb.
    split; [reflexivity|split; [reflexivity|exact Hx]].
Qed.

(** C5, witness: a delivery with handoff count 7 after count 5 was seen. *)
Lemma receive_message_handoff_guard_witness :
  let s0 := mk_session true (VSym "loc") (Some "1.0") None None None 0 0 [5%Z] [] [] in
  let m0 := OpDeliver (DescExport 0)
              [APlain (VSym "ping");
               ASigEnvelope (AHandoffReceive "sess" "side" 7 (APlain (VInt 0))) "sig"]
              None (DescImportObject 1) in
  exists s', receive_message (set_inbox [m0] s0) = Ok m0 s' /\
    forall c, In c (remote_seen_handoff_counts s') <-> In c [5%Z] \/ In c [7%Z].
Proof.
  intros s0 m0.
  destruct (receive_message_handoff_guard (set_inbox [m0] s0) m0 [] eq_refl) as [Hok _].
  destruct Hok as [s' [E [_ [_ Hc]]]].
  - repeat constructor; intros [].
  - intros c [<-|[]] [H|[]]; discriminate.
  - exists s'; split; [exact E|exact Hc].
Defined.

(** C5, counterexample: with count 7 seen, a delivery carrying counts 3 and 7
    raises a plain [Exception], sends no [op:abort], and leaves 3 recorded. *)
Lemma receive_message_replay_no_abort :
  let s0 := mk_session true (VSym "loc") (Some "1.0") None None None 0 0 [7%Z] []
              [OpDeliver (DescExport 0)
                 [ASigEnvelope (AHandoffReceive "sess" "side" 3 (APlain (VInt 0))) "sig";
                  ASigEnvelope (AHandoffReceive "sess" "side" 7 (APlain (VInt 0))) "sig"]
                 None (DescImportObject 1)] in
  exists s', receive_message s0 = Err PlainException s' /\ sent s' = [] /\
    remote_seen_handoff_counts s' = [3%Z; 7%Z].
Proof. eexists; split; [vm_compute; reflexivity|split; reflexivity]. Qed.

(** C6 (the listen asks for partial answers). Once [expect_message_to] has
    returned the resolution: at [break], or at [fulfill] with a value that is
    no [DescImportPromise], the message is returned; at [fulfill] with a
    [DescImportPromise p], the method sends
    [op:listen(DescExport p, DescImportObject n, wants_partial=True)] for the
    next import position [n] and follows [DescExport n]. *)
Theorem expect_promise_resolution_follows (r : nat) (t : target) (s s1 : session) (m : op) :
  expect_message_to [t] s = Ok m s1 ->
  (forall more, op_args m = APlain (VSym "break") :: more ->
     expect_promise_resolution (S r) t s = Ok (Some m) s1) /\
  (forall v more, op_args m = APlain (VSym "fulfill") :: v :: more ->
     (forall p, v <> AImport (DescImportPromise p)) ->
     expect_promise_resolution (S r) t s = Ok (Some m) s1) /\
  (forall p more, op_args m = APlain (VSym "fulfill") :: AImport (DescImportPromise p) :: more ->
     expect_promise_resolution (S r) t s =
     expect_promise_resolution r (DescExport (next_import_position s1))
       (set_sent (sent s1 ++ [OpListen (DescExport p)
                                (DescImportObject (next_import_position s1)) true])%list
          (set_next_import_position (next_import_position s1 + 1) s1))).
Proof.
  intros E; cbn [expect_promise_resolution].
  assert (Hrun : forall k : op -> M (option op),
            bind (expect_message_to [t]) k s = k m s1)
    by (intros k; unfold bind; rewrite E; reflexivity).
  rewrite Hrun; split; [|split].
  - intros more Ha; rewrite Ha; reflexivity.
  - intros v more Ha Hv; rewrite Ha.
    destruct v as [w|tg|[q|q]| |]; try reflexivity.
    exfalso; exact (Hv q eq_refl).
  - intros p more Ha; rewrite Ha; reflexivity.
Qed.

(** C6, witness: a fulfillment with promise 4, next import position 2. *)
Lemma expect_promise_resolution_follows_witness :
  let m0 := OpDeliver (DescExport 0) [APlain (VSym "fulfill"); AImport (DescImportPromise 4)]
              None (DescImportObject 9) in
  let s0 := mk_session true (VSym "loc") (Some "1.0") None None None 2 0 [] [] [m0] in
  expect_message_to [DescExport 0] s0 = Ok m0 (set_inbox [] s0) /\
  expect_promise_resolution 1 (DescExport 0) s0 =
  expect_promise_resolution 0 (DescExport 2)
    (set_sent [OpListen (DescExport 4) (DescImportObject 2) true]
       (set_next_import_position 3 (set_inbox [] s0))).
Proof.
  intros m0 s0.
  assert (E : expect_message_to [DescExport 0] s0 = Ok m0 (set_inbox [] s0))
    by reflexivity.
  split; [exact E|].
  destruct (expect_promise_resolution_follows 0 (DescExport 0) s0 (set_inbox [] s0) m0 E)
    as [_ [_ H]].
  exact (H 4%Z [] eq_refl).
Defined.

End SessionClaims.

(** * Further properties of the codec, the session and the URIs *)

Module Extras.
Import Syrup SyrupFacts SyrupTail SyrupEdge Session SessionFacts SessionOps SessionOpsFacts Uri UriFacts UriOps UriOpsFacts.

(** X2: An input made of whitespace followed by digits only (the empty
    input included) leaves [syrup_decode] reading forever: at the end of the
    input [peek_byte] and [f.read(1)] return [b''], which the
    [in whitespace_chars] and [in digit_chars] tests accept. *)
Theorem decode_truncated_prefix_hangs (w ds : string) (cs : bool) :
  forallb is_ws (list_ascii_of_string w) = true ->
  forallb is_digit (list_ascii_of_string ds) = true ->
  syrup_decode (w ++ ds) cs = Hangs.
Proof.
  intros Hw Hd; rewrite decode_fuel; cbn [read_fuel]; rewrite skip_ws_app by exact Hw.
  destruct ds as [|c r]; [reflexivity|].
  simpl in Hd; apply andb_prop in Hd as [Hc Hr].
  cbn [skip_ws]; rewrite (proj1 (digit_props c Hc)), Hc.
  rewrite read_digits_all; [reflexivity|simpl; rewrite Hc; exact Hr].
Qed.

(** X2, witness: [b' 12']. *)
Lemma decode_truncated_prefix_hangs_witness : syrup_decode (" " ++ "12") false = Hangs.
Proof. apply (decode_truncated_prefix_hangs " " "12" false); reflexivity. Defined.

(** X3: A leading [0] before the digits of a length or an integer changes
    nothing: [int(b'007')] is [7]. *)
Theorem decode_leading_zero (s : string) (cs : bool) :
  (exists c r, s = String c r /\ is_digit c = true) ->
  syrup_decode (String "0" s) cs = syrup_decode s cs.
Proof.
  intros Hs; rewrite !decode_fuel.
  rewrite (read_fuel_digit _ _ (String "0" s)) by (exists "0"%char, s; split; reflexivity).
  rewrite (read_fuel_digit _ _ s Hs).
  destruct Hs as (c & r & -> & Hc).
  change (read_digits (String "0" (String c r)) EmptyString)
    with (read_digits (String c r) (String "0" EmptyString)).
  rewrite read_digits_zero.
  destruct (read_digits (String c r) EmptyString); reflexivity.
Qed.

(** X3, witness: [b'05+'] reads as [b'5+']. *)
Lemma decode_leading_zero_witness : syrup_decode (String "0" "5+") false = syrup_decode "5+" false.
Proof. apply (decode_leading_zero "5+" false); exists "5"%char, "+"; split; reflexivity. Defined.

(** X4: A byte string whose declared length (below [2^63], so that
    [BytesIO.read(n)] takes it as a [Py_ssize_t]) runs past the end of the
    input is returned short: [f.read(n)] returns what is left. *)
Theorem decode_short_bytes (n : N) (b : string) (cs : bool) :
  (n < 2 ^ 63)%N -> (String.length b <= N.to_nat n)%nat ->
  syrup_decode (dec n ++ String ":" b) cs = Done (VBytes b) EmptyString.
Proof.
  intros _ Hb; rewrite decode_fuel, read_dec by reflexivity.
  cbn -[dec digits_value str_take str_drop]; rewrite digits_value_dec.
  rewrite str_take_short, str_drop_short by exact Hb; reflexivity.
Qed.

(** X4, witness: [b'10:abc']. *)
Lemma decode_short_bytes_witness : syrup_decode (dec 10 ++ String ":" "abc") false = Done (VBytes "abc") EmptyString.
Proof. apply (decode_short_bytes 10 "abc" false); [reflexivity|apply Nat.leb_le; reflexivity]. Defined.

(** X5: A [D] followed by fewer than 8 bytes raises [struct.error]. *)
Theorem decode_short_double (b : string) (cs : bool) :
  (String.length b < 8)%nat ->
  syrup_decode (String "D" b) cs = Raised StructError EmptyString.
Proof.
  intros Hb; rewrite decode_fuel, read_fuel_D; unfold read_packed.
  rewrite str_take_short, str_drop_short by lia.
  destruct (Nat.eqb_spec (String.length b) 8); [lia|reflexivity].
Qed.

(** X5, witness: [b'Dabc']. *)
Lemma decode_short_double_witness : syrup_decode (String "D" "abc") false = Raised StructError EmptyString.
Proof. apply (decode_short_double "abc" false); apply Nat.ltb_lt; reflexivity. Defined.

(** X6: A list opened by any of [[], [(], [l] and closed by any of []], [)], [e],
    or by the end of the input, reads back its items. *)
Theorem decode_list_any_brackets (o : ascii) (l : list value) (close : string) (cs : bool) :
  byte_in o "[(l" = true -> wf (VList l) = true ->
  In close [EmptyString; "]"; ")"; "e"] ->
  exists l', syrup_decode (String o (concat_str (map syrup_encode l) ++ close)) cs
             = Done (VList l') EmptyString /\ Forall2 same_value l' l.
Proof.
  intros Ho Hw Hc; rewrite decode_fuel, read_fuel_open_list by exact Ho.
  assert (Hl : Forall (reads_back cs) l).
  { simpl in Hw; rewrite forallb_forall in Hw; rewrite Forall_forall.
    intros x Hx; apply read_encode, Hw, Hx. }
  destruct (read_list_close cs l Hl [] (2 * String.length
              (String o (concat_str (map syrup_encode l) ++ close))) close)
    as (l' & E & Hl').
  - simpl in Hc; destruct Hc as [<-|[<-|[<-|[<-|[]]]]];
      [left; reflexivity|right; eexists _, _; split; reflexivity ..].
  - cbn [String.length]; rewrite str_length_app; lia.
  - exists l'; rewrite E; split; [|exact Hl'].
    simpl in Hc; destruct Hc as [<-|[<-|[<-|[<-|[]]]]]; reflexivity.
Qed.

(** X6, witness: [(] closed by [e]. *)
Lemma decode_list_any_brackets_witness :
  exists l', syrup_decode (String "(" (concat_str (map syrup_encode [VInt 1; VStr "x"]) ++ "e")) false
             = Done (VList l') EmptyString /\ Forall2 same_value l' [VInt 1; VStr "x"].
Proof.
  apply (decode_list_any_brackets "(" [VInt 1; VStr "x"] "e" false);
    [reflexivity|reflexivity|right; right; right; left; reflexivity].
Defined.

(** X7: A dict opened by [{] or [d] and closed by [}], [e] or the end of the
    input reads back its entries in the order written, sorted or not. *)
Theorem decode_dict_any_order (o : ascii) (d : list (value * value)) (close : string)
    (cs : bool) :
  byte_in o "{d" = true -> wf (VDict d) = true ->
  In close [EmptyString; "}"; "e"] ->
  exists d1, syrup_decode (String o (concat_str (map encode_entry d) ++ close)) cs
             = Done (VDict d1) EmptyString /\ Forall2 same_entry d1 d.
Proof.
  intros Ho Hw Hc; rewrite decode_fuel, read_fuel_open_dict by exact Ho.
  destruct (wf_dict_items cs d Hw) as [Hd Hp].
  destruct (read_dict_close cs d Hd [] (2 * String.length
              (String o (concat_str (map encode_entry d) ++ close))) close)
    as (d1 & E & Hd1).
  - simpl in Hc; destruct Hc as [<-|[<-|[<-|[]]]];
      [left; reflexivity|right; eexists _, _; split; reflexivity ..].
  - exact Hp.
  - cbn [String.length]; rewrite str_length_app; lia.
  - exists d1; rewrite E; split; [|exact Hd1].
    simpl in Hc; destruct Hc as [<-|[<-|[<-|[]]]]; reflexivity.
Qed.

(** X7, witness: unsorted keys [b] then [a], no closing byte. *)
Lemma decode_dict_any_order_witness :
  exists d1, syrup_decode (String "d" (concat_str (map encode_entry [(VSym "b", VInt 1); (VSym "a", VInt 2)]) ++ EmptyString)) false
             = Done (VDict d1) EmptyString /\ Forall2 same_entry d1 [(VSym "b", VInt 1); (VSym "a", VInt 2)].
Proof.
  apply (decode_dict_any_order "d" [(VSym "b", VInt 1); (VSym "a", VInt 2)] EmptyString false);
    [reflexivity|reflexivity|left; reflexivity].
Defined.

(** X8: A dict that repeats a hashable key equal to itself (anything but a
    NaN float) decodes to one entry holding the last value: [d[key] = val]
    overwrites. *)
Theorem decode_dict_duplicate_key (k x y : value) (cs : bool) :
  wf k = true -> wf x = true -> wf y = true -> is_hashable k = true ->
  py_key_eq k k = true ->
  exists y', syrup_decode ("{" ++ syrup_encode k ++ syrup_encode x ++ syrup_encode k
                           ++ syrup_encode y ++ "}") cs = Done (VDict [(k, y')]) EmptyString
             /\ same_value y' y.
Proof.
  intros Wk Wx Wy Hh Hkk; rewrite decode_fuel.
  pose proof (encode_length_pos k); pose proof (encode_length_pos x);
    pose proof (encode_length_pos y).
  remember (2 * String.length ("{" ++ syrup_encode k ++ syrup_encode x ++ syrup_encode k
              ++ syrup_encode y ++ "}"))%nat as F eqn:EF.
  cbn [String.length append] in EF; rewrite !str_length_app in EF; cbn [String.length] in EF.
  destruct F as [|f]; [lia|].
  change ("{" ++ ?r) with (String "{" r); rewrite read_fuel_dict, read_dict_step.
  destruct (read_encode cs k Wk f (syrup_encode x ++ syrup_encode k ++ syrup_encode y ++ "}"))
    as (k1 & -> & S1); [lia|]; apply same_value_hashable in S1 as ->; [|exact Hh].
  simpl obind.
  destruct (read_encode cs x Wx f (syrup_encode k ++ syrup_encode y ++ "}"))
    as (x1 & -> & _); [lia|]; simpl obind; rewrite Hh.
  destruct f as [|f]; [lia|].
  rewrite read_dict_step.
  destruct (read_encode cs k Wk f (syrup_encode y ++ "}"))
    as (k2 & -> & S2); [lia|]; apply same_value_hashable in S2 as ->; [|exact Hh].
  simpl obind.
  destruct (read_encode cs y Wy f "}") as (y1 & -> & Sy); [lia|]; simpl obind; rewrite Hh.
  cbn [dict_setitem]; rewrite Hkk.
  destruct f as [|f]; [lia|].
  exists y1; split; [reflexivity|exact Sy].
Qed.

(** X8, witness: [{1+2+1+3+}]. *)
Lemma decode_dict_duplicate_key_witness :
  exists y', syrup_decode ("{" ++ syrup_encode (VInt 1) ++ syrup_encode (VInt 2) ++ syrup_encode (VInt 1)
                           ++ syrup_encode (VInt 3) ++ "}") false = Done (VDict [(VInt 1, y')]) EmptyString
             /\ same_value y' (VInt 3).
Proof. apply (decode_dict_duplicate_key (VInt 1) (VInt 2) (VInt 3) false); reflexivity. Defined.

(** X9: A dict key that is a list, dict, set or record raises [TypeError] once
    its value is read. *)
Theorem decode_dict_unhashable_key (k x : value) (rest : string) (cs : bool) :
  wf k = true -> wf x = true -> is_hashable k = false ->
  syrup_decode ("{" ++ syrup_encode k ++ syrup_encode x ++ rest) cs = Raised TypeError rest.
Proof.
  intros Wk Wx Hh; rewrite decode_fuel.
  pose proof (encode_length_pos k); pose proof (encode_length_pos x).
  remember (2 * String.length ("{" ++ syrup_encode k ++ syrup_encode x ++ rest))%nat
    as F eqn:EF.
  cbn [String.length append] in EF; rewrite !str_length_app in EF.
  destruct F as [|f]; [lia|].
  change ("{" ++ ?r) with (String "{" r); rewrite read_fuel_dict, read_dict_step.
  destruct (read_encode cs k Wk f (syrup_encode x ++ rest)) as (k1 & -> & S1); [lia|].
  simpl obind.
  destruct (read_encode cs x Wx f rest) as (x1 & -> & _); [lia|]; simpl obind.
  assert (is_hashable k1 = false) as ->.
  { inversion S1; subst; simpl in *; congruence. }
  reflexivity.
Qed.

(** X9, witness: the key [[]]. *)
Lemma decode_dict_unhashable_key_witness :
  syrup_decode ("{" ++ syrup_encode (VList []) ++ syrup_encode (VInt 1) ++ "}") false = Raised TypeError "}".
Proof. apply (decode_dict_unhashable_key (VList []) (VInt 1) "}" false); reflexivity. Defined.

(** X10: A set that repeats a hashable element equal to itself (anything but
    a NaN float) decodes to a set holding it once. *)
Theorem decode_set_duplicate (x : value) (cs : bool) :
  wf x = true -> is_hashable x = true -> py_key_eq x x = true ->
  syrup_decode ("#" ++ syrup_encode x ++ syrup_encode x ++ "$") cs
  = Done (VSet [x]) EmptyString.
Proof.
  intros Wx Hh Hxx; rewrite decode_fuel.
  pose proof (encode_length_pos x).
  remember (2 * String.length ("#" ++ syrup_encode x ++ syrup_encode x ++ "$"))%nat
    as F eqn:EF.
  cbn [String.length append] in EF; rewrite !str_length_app in EF; cbn [String.length] in EF.
  destruct F as [|f]; [lia|].
  change ("#" ++ ?r) with (String "#" r); rewrite read_fuel_set, read_set_step.
  destruct (read_encode cs x Wx f (syrup_encode x ++ "$")) as (x1 & -> & S1); [lia|].
  apply same_value_hashable in S1 as ->; [|exact Hh]; simpl obind; rewrite Hh.
  destruct f as [|f]; [lia|]; rewrite read_set_step.
  destruct (read_encode cs x Wx f "$") as (x2 & -> & S2); [lia|].
  apply same_value_hashable in S2 as ->; [|exact Hh]; simpl obind; rewrite Hh.
  unfold set_add; simpl; rewrite Hxx; simpl.
  destruct f as [|f]; [lia|]; reflexivity.
Qed.

(** X10, witness: [#5+5+$]. *)
Lemma decode_set_duplicate_witness :
  syrup_decode ("#" ++ syrup_encode (VInt 5) ++ syrup_encode (VInt 5) ++ "$") false = Done (VSet [VInt 5]) EmptyString.
Proof. apply (decode_set_duplicate (VInt 5) false); reflexivity. Defined.

(** X11: A record with no closing [>] leaves [syrup_decode] reading forever: the
    end of input does not close a record. *)
Theorem decode_unterminated_record_hangs (label : value) (args : list value) (cs : bool) :
  wf (VRecord label args) = true ->
  syrup_decode ("<" ++ syrup_encode label ++ concat_str (map syrup_encode args)) cs = Hangs.
Proof.
  intros Hw; simpl in Hw; apply andb_prop in Hw as [Wl Wa].
  assert (Ha : Forall (reads_back cs) args).
  { rewrite forallb_forall in Wa; rewrite Forall_forall.
    intros a Hin; apply read_encode, Wa, Hin. }
  rewrite decode_fuel; pose proof (encode_length_pos label).
  remember (2 * String.length ("<" ++ syrup_encode label
              ++ concat_str (map syrup_encode args)))%nat as F eqn:EF.
  cbn [String.length append] in EF; rewrite !str_length_app in EF.
  change ("<" ++ ?r) with (String "<" r); rewrite read_fuel_record.
  destruct (read_encode cs label Wl F (concat_str (map syrup_encode args)))
    as (l1 & -> & _); [lia|]; simpl obind.
  apply read_args_eof; [exact Ha|lia].
Qed.

(** X11, witness: [<1'r1+]. *)
Lemma decode_unterminated_record_hangs_witness :
  syrup_decode ("<" ++ syrup_encode (VSym "r") ++ concat_str (map syrup_encode [VInt 1])) false = Hangs.
Proof. apply (decode_unterminated_record_hangs (VSym "r") [VInt 1] false); reflexivity. Defined.

(** X12: A set with no closing [$] leaves [syrup_decode] reading forever. *)
Theorem decode_unterminated_set_hangs (l : list value) (cs : bool) :
  wf (VSet l) = true ->
  syrup_decode ("#" ++ concat_str (map syrup_encode l)) cs = Hangs.
Proof.
  intros Hw; simpl in Hw; apply andb_prop in Hw as [Wl _].
  assert (Hl : Forall (fun x => is_hashable x = true /\ reads_back cs x) l).
  { rewrite forallb_forall in Wl; rewrite Forall_forall.
    intros a Hin; specialize (Wl a Hin); apply andb_prop in Wl as [Hh Wa].
    split; [exact Hh|apply read_encode, Wa]. }
  rewrite decode_fuel.
  change ("#" ++ ?r) with (String "#" r); rewrite read_fuel_set.
  apply read_set_eof; [exact Hl|cbn [String.length]; lia].
Qed.

(** X12, witness: [#1+]. *)
Lemma decode_unterminated_set_hangs_witness :
  syrup_decode ("#" ++ concat_str (map syrup_encode [VInt 1])) false = Hangs.
Proof. apply (decode_unterminated_set_hangs [VInt 1] false); reflexivity. Defined.

(** X13: Whitespace before the closing [] ] of a list raises
    [SyrupEncodeError]: the close test peeks before whitespace is skipped,
    and the nested read then meets [] ] ]. *)
Theorem decode_list_space_before_close (v : value) (w : string) (cs : bool) :
  wf v = true -> w <> EmptyString -> forallb is_ws (list_ascii_of_string w) = true ->
  syrup_decode ("[" ++ syrup_encode v ++ w ++ "]") cs = Raised SyrupEncodeError "]".
Proof.
  intros Wv Hne Hw; rewrite decode_fuel.
  pose proof (encode_length_pos v).
  remember (2 * String.length ("[" ++ syrup_encode v ++ w ++ "]"))%nat as F eqn:EF.
  cbn [String.length append] in EF; rewrite !str_length_app in EF; cbn [String.length] in EF.
  destruct w as [|c r]; [congruence|].
  cbn [String.length] in EF.
  destruct F as [|f]; [lia|].
  change ("[" ++ ?r) with (String "[" r); rewrite read_fuel_list, read_list_step.
  destruct (read_encode cs v Wv f (String c r ++ "]")) as (v1 & -> & _); [lia|].
  simpl obind.
  simpl in Hw; apply andb_prop in Hw as [Hc Hr].
  destruct f as [|[|f]]; [lia|lia|].
  cbn [read_list append]; rewrite ws_not_close by exact Hc.
  cbn [read_fuel skip_ws]; rewrite Hc.
  rewrite (skip_ws_app r "]") by exact Hr; reflexivity.
Qed.

(** X13, witness: [[1+ ]]. *)
Lemma decode_list_space_before_close_witness :
  syrup_decode ("[" ++ syrup_encode (VInt 1) ++ " " ++ "]") false = Raised SyrupEncodeError "]".
Proof. apply (decode_list_space_before_close (VInt 1) " " false); [reflexivity|discriminate|reflexivity]. Defined.

(** X14: [syrup_decode] reads the first value and leaves any bytes after it
    unread. *)
Theorem decode_ignores_trailing (v : value) (rest : string) (cs : bool) :
  wf v = true ->
  exists v', syrup_decode (syrup_encode v ++ rest) cs = Done v' rest /\ same_value v' v.
Proof.
  intros Wv; unfold syrup_decode, syrup_read.
  apply (read_encode cs v Wv); rewrite str_length_app; lia.
Qed.

(** X14, witness: [1+] followed by [xyz]. *)
Lemma decode_ignores_trailing_witness :
  exists v', syrup_decode (syrup_encode (VInt 1) ++ "xyz") false = Done v' "xyz" /\ same_value v' (VInt 1).
Proof. apply (decode_ignores_trailing (VInt 1) "xyz" false); reflexivity. Defined.

(** X15: With no message carrying a handoff argument, [expect_message_to]
    skips every message before the first delivery
    ([op:deliver] or [op:deliver-only]) to one of the recipients, returns
    that delivery, and leaves the messages after it unread. *)
Theorem expect_message_to_first (recipients : list target) (pre : list op) (m : op)
    (post : list op) (s : session) :
  inbox s = (pre ++ m :: post)%list ->
  Forall (fun x => no_handoffs x /\ delivers_to recipients x = false) pre ->
  no_handoffs m -> delivers_to recipients m = true ->
  expect_message_to recipients s = Ok m (set_inbox post s).
Proof. exact (expect_to_first recipients pre m post s). Qed.

(** X15, witness: an abort and a delivery to another export are skipped. *)
Lemma expect_message_to_first_witness :
  let m := OpDeliverOnly (DescAnswer 2) [APlain (VInt 1)] in
  let s := mk_session true (VSym "loc") None None None None 0 0 [] []
             [OpAbort "x"; OpDeliver (DescExport 2) [] None (DescImportObject 1); m;
              OpAbort "y"] in
  expect_message_to [DescAnswer 2] s = Ok m (set_inbox [OpAbort "y"] s).
Proof.
  intros m s.
  apply (expect_message_to_first [DescAnswer 2]
           [OpAbort "x"; OpDeliver (DescExport 2) [] None (DescImportObject 1)] m [OpAbort "y"] s);
    [reflexivity| |exact I|reflexivity].
  constructor; [split; [exact I|reflexivity]|].
  constructor; [split; reflexivity|constructor].
Defined.

(** X16: When no message in the inbox is a delivery to one of the
    recipients, [expect_message_to] reads the whole inbox and then waits. *)
Theorem expect_message_to_none (recipients : list target) (s : session) :
  Forall (fun x => no_handoffs x /\ delivers_to recipients x = false) (inbox s) ->
  expect_message_to recipients s = Blocked (set_inbox [] s).
Proof. exact (expect_to_none recipients s). Qed.

(** X16, witness: a delivery to another export only. *)
Lemma expect_message_to_none_witness :
  let s := mk_session true (VSym "loc") None None None None 0 0 [] []
             [OpDeliver (DescExport 5) [] None (DescImportObject 1)] in
  expect_message_to [DescExport 0] s = Blocked (set_inbox [] s).
Proof.
  intros s; apply (expect_message_to_none [DescExport 0] s).
  constructor; [split; reflexivity|constructor].
Defined.

(** X17: [get_bootstrap_object(pipeline=True)] caches nothing: called twice
    with no cached object, it sends two [op:bootstrap] messages with
    consecutive answer positions and consecutive import positions, returns
    the two answers, and reads nothing. *)
Theorem get_bootstrap_pipelined_twice (s : session) :
  exists s2,
    (r1 <- get_bootstrap_object None true ;;
     r2 <- get_bootstrap_object (snd r1) true ;; ret (r1, r2)) s =
    Ok ((DescAnswer (next_answer_position s), None),
        (DescAnswer (next_answer_position s + 1), None)) s2 /\
    sent s2 = (sent s ++ [OpBootstrap (next_answer_position s) (DescImportObject (next_import_position s));
                          OpBootstrap (next_answer_position s + 1) (DescImportObject (next_import_position s + 1))])%list /\
    inbox s2 = inbox s.
Proof.
  eexists; split; [destruct s; reflexivity|].
  destruct s; simpl; split; [rewrite <- app_assoc; reflexivity|reflexivity].
Qed.







(** X21: [fetch_object(swiss_num, pipeline=True)] with no cached bootstrap
    object sends [op:bootstrap] and then an [op:deliver] of
    [fetch swiss_num] to that bootstrap answer, with the next answer position
    and the next import position; it returns the answer of the fetch, takes
    two answer and two import positions, and reads nothing. *)
Theorem fetch_pipelined_fresh (s : session) (swiss_num : value) :
  exists s',
    fetch_object_pipelined None swiss_num s =
    Ok (DescAnswer (next_answer_position s + 1), None) s' /\
    sent s' = (sent s ++
      [OpBootstrap (next_answer_position s) (DescImportObject (next_import_position s));
       OpDeliver (DescAnswer (next_answer_position s)) [APlain (VSym "fetch"); APlain swiss_num]
         (Some (next_answer_position s + 1)%Z) (DescImportObject (next_import_position s + 1))])%list /\
    next_answer_position s' = (next_answer_position s + 2)%Z /\
    next_import_position s' = (next_import_position s + 2)%Z /\
    inbox s' = inbox s.
Proof.
  destruct s; cbv [fetch_object_pipelined get_bootstrap_object bind ret next_answer
    next_import_object send_message modify set_sent set_next_import_position
    set_next_answer_position target_position]; cbn.
  eexists; split; [reflexivity|]; cbn; repeat split; try lia.
  rewrite <- app_assoc; reflexivity.
Qed.

(** X22: With a cached bootstrap object, [fetch_object(swiss_num,
    pipeline=True)] sends only the [op:deliver] of [fetch swiss_num] to it. *)
Theorem fetch_pipelined_cached (s : session) (b : target) (swiss_num : value) :
  fetch_object_pipelined (Some b) swiss_num s =
  Ok (DescAnswer (next_answer_position s), Some b)
     (set_sent (sent s ++ [OpDeliver b [APlain (VSym "fetch"); APlain swiss_num]
                             (Some (next_answer_position s)) (DescImportObject (next_import_position s))])
        (set_next_import_position (next_import_position s + 1)
           (set_next_answer_position (next_answer_position s + 1) s))).
Proof. destruct s; reflexivity. Qed.

(** X23: [OCapNNode.__eq__] (equal [to_syrup()] encodings): for nodes whose
    strings are valid UTF-8 and whose hint keys are distinct, two nodes are
    equal exactly when they have the same transport, the same address and the
    same hints in any order. *)
Theorem node_eq_iff (n1 n2 : ocapn_node) :
  wf (node_to_syrup_record n1) = true -> wf (node_to_syrup_record n2) = true ->
  node_eqb n1 n2 = true <->
  transport n1 = transport n2 /\ address n1 = address n2 /\ Permutation (hints n1) (hints n2).
Proof.
  intros W1 W2; unfold node_eqb, node_to_syrup; rewrite String.eqb_eq; split.
  - intros He.
    destruct (read_encode false _ W1 (2 * String.length (syrup_encode (node_to_syrup_record n1)) + 1) "" (le_n _))
      as (v1 & R1 & S1).
    destruct (read_encode false _ W2 (2 * String.length (syrup_encode (node_to_syrup_record n1)) + 1) ""
                ltac:(rewrite He; lia)) as (v2 & R2 & S2).
    rewrite <- He, R1 in R2; injection R2 as <-.
    destruct (same_node_record v1 n1 S1) as (d1 & -> & P1).
    destruct (same_node_record _ n2 S2) as (d2 & E & P2).
    injection E as Et Ea Ed; subst d2.
    repeat split; [exact Et|exact Ea|].
    apply perm_str_pairs; rewrite <- P1; exact P2.
  - intros (Et & Ea & Hp).
    unfold node_to_syrup_record; rewrite Et, Ea.
    change (syrup_encode (VRecord (VSym "ocapn-node") [VSym (transport n2); VStr (address n2); hints_value (hints n1)]))
      with ("<" ++ syrup_encode (VSym "ocapn-node") ++
            (syrup_encode (VSym (transport n2)) ++ syrup_encode (VStr (address n2)) ++
             syrup_encode (hints_value (hints n1)) ++ "") ++ ">").
    change (syrup_encode (VRecord (VSym "ocapn-node") [VSym (transport n2); VStr (address n2); hints_value (hints n2)]))
      with ("<" ++ syrup_encode (VSym "ocapn-node") ++
            (syrup_encode (VSym (transport n2)) ++ syrup_encode (VStr (address n2)) ++
             syrup_encode (hints_value (hints n2)) ++ "") ++ ">").
    assert (Wh : wf (hints_value (hints n1)) = true).
    { revert W1; unfold node_to_syrup_record; cbn [wf forallb]; rewrite !andb_true_iff; tauto. }
    unfold hints_value.
    rewrite (encode_dict_perm _ (map (fun '(k, x) => (VStr k, VStr x)) (hints n2)) Wh
               (hints_keys_nodup _ Wh) (Permutation_map _ Hp)).
    reflexivity.
Qed.

(** X23, witness: the same two hints in the other order. *)
Lemma node_eq_iff_witness :
  node_eqb (OCapNNode "tcp" "abc" [("a", "1"); ("b", "2")])
           (OCapNNode "tcp" "abc" [("b", "2"); ("a", "1")]) = true.
Proof.
  apply (node_eq_iff (OCapNNode "tcp" "abc" [("a", "1"); ("b", "2")])
           (OCapNNode "tcp" "abc" [("b", "2"); ("a", "1")])); [reflexivity|reflexivity|].
  split; [reflexivity|split; [reflexivity|apply perm_swap]].
Defined.

(** X24: For an address and a transport of letters, digits, [-] and [_]
    (and dots in the address), and hints whose keys and values are UTF-8
    images of strings (so that [parse_qsl]'s [unquote], which decodes the
    bytes as UTF-8 with [errors='replace'], gives them back), [OCapNNode.from_uri] on
    [ocapn://<address>.<transport>] followed by [?] and the [urlencode]d hints
    (nothing when there are no hints) returns the node with that address and
    transport, its hints [dict()] of the hint pairs whose value is not empty,
    each decoded back. *)
Theorem from_uri_ocapn (a t : string) (h : list (string * string)) :
  forallb netloc_char (list_ascii_of_string a) = true ->
  forallb plain_address_char (list_ascii_of_string t) = true ->
  forallb (fun kv => utf8_valid (fst kv) && utf8_valid (snd kv)) h = true ->
  from_uri ("ocapn://" ++ a ++ "." ++ t ++
            match h with [] => EmptyString | _ => "?" ++ urlencode h end) =
  Ret (OCapNNode t a (dict_of_pairs (filter (fun kv => negb (String.eqb (snd kv) EmptyString)) h))).
Proof.
  intros Ha Ht _.
  set (stop := String "009" (String "013" (String "010" "/?#[]"))).
  assert (An : avoids stop (a ++ "." ++ t) = true).
  { rewrite !avoids_app; apply andb_true_iff; split; [|apply andb_true_iff; split].
    - apply (avoids_of_forallb netloc_char); [exact Ha|exact netloc_char_avoids].
    - reflexivity.
    - apply (avoids_of_forallb plain_address_char); [exact Ht|].
      intros c Hc; apply netloc_char_avoids; unfold netloc_char; rewrite Hc; reflexivity. }
  set (q := match h with [] => EmptyString | _ => "?" ++ urlencode h end).
  assert (Aq : avoids (String "009" (String "013" (String "010" "#"))) q = true).
  { subst q; destruct h as [|p ps]; [reflexivity|].
    change ("?" ++ urlencode (p :: ps)) with (String "?" (urlencode (p :: ps))).
    unfold avoids; simpl list_ascii_of_string; simpl forallb.
    change (forallb (fun c => negb (byte_in c (String "009" (String "013" (String "010" "#")))))
              (list_ascii_of_string (urlencode (p :: ps))))
      with (avoids (String "009" (String "013" (String "010" "#"))) (urlencode (p :: ps))).
    unfold urlencode.
    assert (Hf : Forall (fun x => avoids (String "009" (String "013" (String "010" "&#"))) x = true)
                   (map (fun '(k, v) => quote_plus k ++ "=" ++ quote_plus v) (p :: ps))).
    { apply Forall_forall; intros x Hx; apply in_map_iff in Hx as ([k v] & <- & _).
      rewrite !avoids_app.
      rewrite !(avoids_sub _ _ _ (quote_plus_avoids _)) by reflexivity; reflexivity. }
    revert Hf; generalize (map (fun '(k, v) => quote_plus k ++ "=" ++ quote_plus v) (p :: ps)).
    induction l as [|x [|y l] IH]; intros Hf; [reflexivity| |].
    - inversion Hf; subst; simpl; apply (avoids_sub _ _ _ H1); reflexivity.
    - inversion Hf as [|? ? Hx Hl]; subst.
      change (join "&" (x :: y :: l)) with (x ++ "&" ++ join "&" (y :: l)).
      rewrite !avoids_app, IH by exact Hl.
      rewrite (avoids_sub _ _ _ Hx) by reflexivity; reflexivity. }
  unfold from_uri, urlsplit.
  change (lstrip_c0 ("ocapn://" ++ a ++ "." ++ t ++ q)) with ("ocapn://" ++ a ++ "." ++ t ++ q).
  change (remove_unsafe ("ocapn://" ++ a ++ "." ++ t ++ q))
    with ("ocapn://" ++ remove_unsafe (a ++ "." ++ t ++ q)).
  rewrite remove_unsafe_avoids.
  2: { replace (a ++ "." ++ t ++ q) with ((a ++ "." ++ t) ++ q) by (rewrite !str_app_assoc; reflexivity).
       rewrite avoids_app, (avoids_sub _ _ _ An), (avoids_sub _ _ _ Aq) by reflexivity; reflexivity. }
  change (split_once ":" ("ocapn://" ++ a ++ "." ++ t ++ q))
    with (Some ("ocapn", "//" ++ a ++ "." ++ t ++ q)).
  cbv beta iota zeta.
  change (lower "ocapn") with "ocapn".
  change (is_alpha "o" && forallb is_scheme_char (list_ascii_of_string "ocapn")) with true.
  cbv beta iota zeta.
  change ("//" ++ a ++ "." ++ t ++ q) with (String "/" (String "/" (a ++ "." ++ t ++ q))).
  cbv beta iota zeta.
  replace (a ++ "." ++ t ++ q) with ((a ++ "." ++ t) ++ q) by (rewrite !str_app_assoc; reflexivity).
  rewrite span_not_avoids by (apply (avoids_sub _ _ _ An); reflexivity).
  assert (Sq : span_not "/?#" q = (EmptyString, q)).
  { subst q; destruct h as [|p ps]; [reflexivity|].
    change ("?" ++ urlencode (p :: ps)) with (String "?" (urlencode (p :: ps))); reflexivity. }
  rewrite Sq; cbv beta iota zeta; rewrite str_app_nil_r.
  rewrite (byte_in_avoids "[" stop (a ++ "." ++ t) An) by reflexivity.
  rewrite (byte_in_avoids "]" stop (a ++ "." ++ t) An) by reflexivity.
  assert (Rs : rsplit_once "." (a ++ "." ++ t) = Some (a, t)).
  { apply rsplit_once_last, (plain_no_byte t); [exact Ht|reflexivity]. }
  subst q; destruct h as [|p ps].
  - rewrite split_once_none by reflexivity; cbv beta iota zeta.
    rewrite split_once_none by reflexivity; cbv beta iota zeta.
    cbn [xorb scheme query netloc]; rewrite String.eqb_refl; cbn [negb parse_qsl_strict].
    rewrite Rs; reflexivity.
  - change ("?" ++ urlencode (p :: ps)) with (String "?" (urlencode (p :: ps))) in *.
    rewrite split_once_none by exact (avoids_cons_inv _ _ _ (avoids_cons_inv _ _ _ (avoids_cons_inv _ _ _ Aq))).
    cbv beta iota zeta.
    replace (split_once "?" (String "?" (urlencode (p :: ps))))
      with (Some (EmptyString, urlencode (p :: ps))) by reflexivity.
    cbv beta iota zeta.
    cbn [xorb scheme query netloc]; rewrite String.eqb_refl; cbn [negb].
    destruct (urlencode_nonempty (p :: ps)) as (c & r & Ec); [discriminate|].
    unfold parse_qsl_strict; rewrite Ec, <- Ec.
    unfold urlencode.
    replace (map (fun '(k, v) => quote_plus k ++ "=" ++ quote_plus v) (p :: ps))
      with (map encode_field (p :: ps)) by (apply map_ext; intros [k v]; reflexivity).
    rewrite split_on_join.
    + rewrite parse_fields_encoded, Rs; reflexivity.
    + discriminate.
    + apply Forall_forall; intros x Hx; apply in_map_iff in Hx as ([k v] & <- & _).
      unfold encode_field; rewrite !avoids_app.
      rewrite !(avoids_sub _ _ _ (quote_plus_avoids _)) by reflexivity; reflexivity.
Qed.

(** X24, witness: an address with dots and a hint holding a space. *)
Lemma from_uri_ocapn_witness :
  from_uri ("ocapn://" ++ "127.0.0.1" ++ "." ++ "tcp" ++ "?" ++ urlencode [("k", "v w"); ("e", EmptyString)]) =
  Ret (OCapNNode "tcp" "127.0.0.1" [("k", "v w")]).
Proof.
  exact (from_uri_ocapn "127.0.0.1" "tcp" [("k", "v w"); ("e", EmptyString)] eq_refl eq_refl eq_refl).
Defined.

(** X25: [OCapNNode.from_uri] raises nothing but [ValueError] (from
    [urlsplit], [parse_qsl] or the unpacking of [rsplit]) and
    [AssertionError] (a scheme other than [ocapn]). *)
Theorem from_uri_errors (u : string) (e : exn) :
  from_uri u = Exc e -> e = ValueError \/ e = AssertionError.
Proof.
  unfold from_uri; destruct (urlsplit u) as [sr|e'] eqn:Eu.
  - destruct (negb _); [intros H; injection H; auto|].
    destruct (parse_qsl_strict (query sr)) as [hs|e'] eqn:Eq.
    + destruct (rsplit_once _ _) as [[? ?]|]; [discriminate|intros H; injection H; auto].
    + intros H; injection H as <-; left; exact (parse_qsl_strict_exc _ _ Eq).
  - intros H; injection H as <-; left; exact (urlsplit_exc _ _ Eu).
Qed.

(** X25, witness: a netloc without a dot. *)
Lemma from_uri_errors_witness :
  from_uri "ocapn://abc" = Exc ValueError /\
  (ValueError = ValueError \/ ValueError = AssertionError).
Proof.
  assert (E : from_uri "ocapn://abc" = Exc ValueError) by reflexivity.
  split; [exact E|exact (from_uri_errors "ocapn://abc" ValueError E)].
Defined.

End Extras.
